(** * Zipper: a stored-method PKZIP writer and its CRC-32 engine

    A shallow embedding of the two script includes of the repository,
    [CRC32.js] and the [Zipper] class, followed by the properties of the
    archive layout that the specification states.

    JavaScript numbers that occur in the code are integers and are modelled
    by [Z]; the 32-bit wrap-around of the bitwise operators is written out.
    A JavaScript string is the list of its UTF-16 code units, so that the
    "binary strings" of the code (one byte per character) are lists of
    numbers below 256. *)

From Stdlib Require Import ZArith List Bool Lia.
Import ListNotations.

Open Scope Z_scope.

(** ** The fragment of JavaScript the code relies on *)

Module JS.

Definition jsstring := list Z.

(** [s.length] *)
Definition len {A : Type} (s : list A) : Z := Z.of_nat (length s).

Definition ToInt32 (x : Z) : Z := (x + 2 ^ 31) mod 2 ^ 32 - 2 ^ 31.
Definition ToUint32 (x : Z) : Z := x mod 2 ^ 32.
Definition ToUint16 (x : Z) : Z := x mod 2 ^ 16.

(** [a & b], [a | b], [a ^ b]: both operands go through ToInt32; the
    result of the bit operation on two 32-bit two's complement numbers is
    again one. *)
Definition bitand (a b : Z) : Z := Z.land (ToInt32 a) (ToInt32 b).
Definition bitor (a b : Z) : Z := Z.lor (ToInt32 a) (ToInt32 b).
Definition bitxor (a b : Z) : Z := Z.lxor (ToInt32 a) (ToInt32 b).

(** [a << b], [a >> b] (sign-propagating) and [a >>> b] (zero-fill); the
    shift count is taken modulo 32. *)
Definition shl (a b : Z) : Z :=
  ToInt32 (Z.shiftl (ToInt32 a) (Z.land (ToUint32 b) 31)).
Definition sar (a b : Z) : Z :=
  Z.shiftr (ToInt32 a) (Z.land (ToUint32 b) 31).
Definition shr (a b : Z) : Z :=
  Z.shiftr (ToUint32 a) (Z.land (ToUint32 b) 31).

(** [String.fromCharCode(c)]: one code unit, [c] taken modulo 2^16. *)
Definition fromCharCode (c : Z) : jsstring := [ToUint16 c].

(** [s.substring(a, b)]: both indices are clamped to [0, s.length] and
    swapped when they come in the wrong order. *)
Definition clamp (s : jsstring) (i : Z) : Z := Z.min (Z.max i 0) (len s).
Definition substring (s : jsstring) (a b : Z) : jsstring :=
  let lo := Z.min (clamp s a) (clamp s b) in
  let hi := Z.max (clamp s a) (clamp s b) in
  firstn (Z.to_nat (hi - lo)) (skipn (Z.to_nat lo) s).

Definition string_eqb (s1 s2 : jsstring) : bool :=
  if list_eq_dec Z.eq_dec s1 s2 then true else false.

(** [s.endsWith(suffix)] *)
Definition endsWith (s suffix : jsstring) : bool :=
  (length suffix <=? length s)%nat
  && string_eqb (skipn (length s - length suffix) s) suffix.

End JS.

Import JS.

(** ** CRC32.js *)

Module CRC32.

(** The instance: the memoised table ([null] until first use) and the
    polynomial. *)
Record t := mk {
  _crc_table : option (list Z);
  MAGIC_NUMBER : Z
}.

(** [polynomial || 0xEDB88320]: an absent or zero polynomial is falsy. *)
Definition initialize (polynomial : option Z) : t :=
  {| _crc_table := None;
     MAGIC_NUMBER :=
       match polynomial with
       | Some p => if p =? 0 then 0xEDB88320 else p
       | None => 0xEDB88320
       end |}.

(** The argument of [evaluate]: a string or an array of numbers. *)
Inductive arg :=
| OfString (s : jsstring)
| OfBytes (b : list Z).

(** One round of the inner loop of [_buildCRCTable]. *)
Definition table_step (polynomial c : Z) : Z :=
  if bitand c 1 =? 0 then shr c 1 else bitxor polynomial (shr c 1).

Definition _buildCRCTable (self : t) : list Z :=
  let polynomial := MAGIC_NUMBER self in
  map (fun n => Nat.iter 8 (table_step polynomial) (Z.of_nat n))
      (seq 0 (32 * 8)).

Definition _strToByte (str : jsstring) : list Z :=
  fold_left (fun bytes c => bytes ++ [bitand c 0xFF]) str [].

(** [crcTable[i]]: an index outside the array reads [undefined], which the
    following [^] turns into 0. *)
Definition table_at (crcTable : list Z) (i : Z) : Z :=
  nth (Z.to_nat i) crcTable 0.

Definition crc_step (crcTable : list Z) (crc b : Z) : Z :=
  bitxor (shr crc 8) (table_at crcTable (bitand (bitxor crc b) 0xFF)).

(** [evaluate] returns the checksum and the instance with its table
    memoised. *)
Definition evaluate (self : t) (a : arg) : Z * t :=
  let bytes := match a with OfString s => _strToByte s | OfBytes b => b end in
  let crcTable :=
    match _crc_table self with
    | Some tbl => tbl
    | None => _buildCRCTable self
    end in
  let self' := {| _crc_table := Some crcTable;
                  MAGIC_NUMBER := MAGIC_NUMBER self |} in
  let crc := bitxor 0 (-1) in
  let crc := fold_left (crc_step crcTable) bytes crc in
  (shr (bitxor crc (-1)) 0, self').

End CRC32.

(** ** The Zipper class *)

(** A JavaScript value handed to [_intToBytes]: the code passes numbers
    and, at one call site, a string. *)
Inductive JSValue :=
| JSNum (n : Z)
| JSStr (s : jsstring).

(** [FileData] *)
Record FileData := mkFile {
  sys_id : jsstring;
  name : jsstring;
  data : jsstring
}.

(** The fields of a [Date] that the code reads. *)
Record JSDate := mkDate {
  getFullYear : Z;
  getMonth : Z;
  getDate : Z;
  getHours : Z;
  getMinutes : Z;
  getSeconds : Z
}.

(** [this._zipDate] *)
Record ZipDate := mkZipDate {
  zd_date : Z;
  zd_time : Z
}.

(** The mutable fields of an instance. [date] and [_zipDate] are undefined
    until [write] assigns them. *)
Record Zipper := mkZipper {
  zCRC32 : CRC32.t;
  files : list FileData;
  date : option JSDate;
  _zipDate : option ZipDate
}.

(** The fields that [initialize] sets and nothing assigns again. *)
Definition MAX_FILENAME_LENGTH : Z := 256.
Definition MIME_TYPE : jsstring :=
  [0x61; 0x70; 0x70; 0x6c; 0x69; 0x63; 0x61; 0x74; 0x69; 0x6f; 0x6e; 0x2f;
   0x7a; 0x69; 0x70].
Definition ARCHIVE_EXTENSION : jsstring := [0x7a; 0x69; 0x70].
Definition PKZIP_VERSION : jsstring := [0x14; 0x00].

Definition initialize : Zipper :=
  {| zCRC32 := CRC32.initialize None;
     files := [];
     date := None;
     _zipDate := None |}.

(** *** The host platform *)

(** A row of [sys_attachment] together with its content; [getValue] gives
    [null] for an empty field. *)
Record Attachment := mkAttachment {
  att_sys_id : jsstring;
  att_file_name : option jsstring;
  att_bytes : list Z
}.

(** The arguments of one call of [GlideSysAttachment.write]. *)
Record Written := mkWritten {
  w_table : jsstring;
  w_record : jsstring;
  w_filename : jsstring;
  w_mime : jsstring;
  w_data : jsstring
}.

Record Platform := mkPlatform {
  sys_attachment : jsstring -> option Attachment;
  tableExists : jsstring -> bool;
  isEligibleSysID : jsstring -> bool;
  record_get : jsstring -> jsstring -> bool;
  now : JSDate;
  written : list Written
}.

Inductive Error :=
| NoAttachmentRecord
| InvalidTable
| InvalidRecord
| InvalidFilename
| NoTargetRecord (record table : jsstring)
| UnsupportedPlatform
| TypeError.

(** *** Methods run on the platform and on [this]; they return or throw *)

Inductive Outcome (A : Type) : Type :=
| Returned (a : A) (p : Platform) (this : Zipper)
| Thrown (e : Error) (p : Platform) (this : Zipper).
Arguments Returned {A} a p this.
Arguments Thrown {A} e p this.

Definition M (A : Type) : Type := Platform -> Zipper -> Outcome A.

Definition ret {A : Type} (a : A) : M A := fun p z => Returned a p z.
Definition throw {A : Type} (e : Error) : M A := fun p z => Thrown e p z.
Definition bind {A B : Type} (m : M A) (k : A -> M B) : M B :=
  fun p z =>
    match m p z with
    | Returned a p' z' => k a p' z'
    | Thrown e p' z' => Thrown e p' z'
    end.
Definition host : M Platform := fun p z => Returned p p z.
Definition this : M Zipper := fun p z => Returned z p z.
Definition assign (z' : Zipper) : M unit := fun p _ => Returned tt p z'.

Notation "x <- c ;; k" := (bind c (fun x => k))
  (at level 61, c at next level, right associativity).
Notation "c ;;; k" := (bind c (fun _ => k))
  (at level 61, right associativity).

(** [gs.nil(x)]: null, undefined or the empty string. *)
Definition nil (x : option jsstring) : bool :=
  match x with
  | None => true
  | Some [] => true
  | Some _ => false
  end.

Definition str (x : option jsstring) : jsstring :=
  match x with Some s => s | None => [] end.

(** [GlideSysAttachment.write(target, filename, mime, data)], the sink. *)
Definition GlideSysAttachment_write
    (table record filename mime bytes new_id : jsstring) : M jsstring :=
  fun p z =>
    Returned new_id
      {| sys_attachment := sys_attachment p;
         tableExists := tableExists p;
         isEligibleSysID := isEligibleSysID p;
         record_get := record_get p;
         now := now p;
         written := written p ++ [mkWritten table record filename mime bytes]
      |} z.

(** *** Private helpers *)

Definition _binToString (array : list Z) : jsstring :=
  fold_left (fun sbytes b => sbytes ++ fromCharCode (bitand b 0xff)) array [].

Definition _getZipTime (d : JSDate) : Z :=
  let hours := getHours d in
  let minutes := getMinutes d in
  let seconds := getSeconds d in
  let zipSeconds := seconds / 2 in
  bitor (bitor (shl hours 11) (shl minutes 5)) zipSeconds.

Definition _getZipDate (d : JSDate) : Z :=
  let year := getFullYear d in
  let month := getMonth d + 1 in
  let day := getDate d in
  let zipYear := year - 1980 in
  bitor (bitor (shl zipYear 9) (shl month 5)) day.

(** Reading [this._zipDate.time] throws when [_zipDate] is undefined. *)
Definition read_zipDate : M ZipDate :=
  z <- this ;;
  match _zipDate z with
  | Some zd => ret zd
  | None => throw TypeError
  end.

(** [this.CRC32.evaluate(arg)], which memoises the table in the engine. *)
Definition CRC32_evaluate (a : CRC32.arg) : M Z :=
  z <- this ;;
  let (crc, engine) := CRC32.evaluate (zCRC32 z) a in
  assign {| zCRC32 := engine; files := files z; date := date z;
            _zipDate := _zipDate z |} ;;;
  ret crc.

Section ZipperClass.

(** ToInt32 of a string that may spell a numeric literal. The code never
    produces such a string, so its reading is left to the engine. *)
Variable StrNumericLiteral_ToInt32 : jsstring -> Z.

(** A letter other than [I] (of [Infinity]) starts no numeric literal. *)
Definition no_numeric_start (c : Z) : bool :=
  (((0x41 <=? c) && (c <=? 0x5A)) || ((0x61 <=? c) && (c <=? 0x7A)))
  && negb (c =? 0x49).

(** ToInt32 on a string goes through ToNumber: the empty string reads as
    +0; a string that starts with such a letter reads as NaN, which ToInt32
    sends to +0. *)
Definition ToInt32_string (s : jsstring) : Z :=
  match s with
  | [] => 0
  | c :: _ => if no_numeric_start c then 0 else StrNumericLiteral_ToInt32 s
  end.

Definition ToInt32_value (v : JSValue) : Z :=
  match v with
  | JSNum n => ToInt32 n
  | JSStr s => ToInt32_string s
  end.

Fixpoint intToBytes_loop (value : Z) (byteCount : nat) (bytes : list Z)
  : list Z :=
  match byteCount with
  | O => bytes
  | S k => intToBytes_loop (sar value 8) k (bytes ++ [bitand value 0xff])
  end.

(** [value & 0xff] and [value >>= 8] both start by ToInt32 of [value];
    after the first [>>=] the variable holds a 32-bit number. *)
Definition _intToBytes (value : JSValue) (byteCount : nat) : jsstring :=
  let bytes := intToBytes_loop (ToInt32_value value) byteCount [] in
  let bytes := bytes ++ repeat 0 (byteCount - length bytes) in
  _binToString bytes.

Definition _header (file : FileData) : M jsstring :=
  let PKZIP_LOCAL_SIGNATURE := [0x50; 0x4b; 0x03; 0x04] in
  let header := [] in
  let header := header ++ PKZIP_LOCAL_SIGNATURE in
  let header := header ++ PKZIP_VERSION in
  let header := header ++ [0x00; 0x00] in
  let header := header ++ [0x00; 0x00] in
  zipDate <- read_zipDate ;;
  let header := header ++ _intToBytes (JSNum (zd_time zipDate)) 2 in
  let header := header ++ _intToBytes (JSNum (zd_date zipDate)) 2 in
  crc <- CRC32_evaluate (CRC32.OfString (data file)) ;;
  let header := header ++ _intToBytes (JSNum crc) 4 in
  let header := header ++ _intToBytes (JSNum (len (data file))) 4 in
  let header := header ++ _intToBytes (JSNum (len (data file))) 4 in
  let header := header ++ _intToBytes (JSNum (len (name file))) 2 in
  let header := header ++ [0x00; 0x00] in
  let header := header ++ name file in
  ret header.

Definition _directory (file : FileData) (offset : Z) : M jsstring :=
  let PKZIP_CD_SIGNATURE := [0x50; 0x4B; 0x01; 0x02] in
  let directory := [] in
  let directory := directory ++ PKZIP_CD_SIGNATURE in
  let directory := directory ++ PKZIP_VERSION in
  let directory := directory ++ PKZIP_VERSION in
  let directory := directory ++ [0x00; 0x00] in
  let directory := directory ++ [0x00; 0x00] in
  zipDate <- read_zipDate ;;
  let directory := directory ++ _intToBytes (JSNum (zd_time zipDate)) 2 in
  let directory := directory ++ _intToBytes (JSNum (zd_date zipDate)) 2 in
  crc <- CRC32_evaluate (CRC32.OfString (data file)) ;;
  let directory := directory ++ _intToBytes (JSNum crc) 4 in
  let directory := directory ++ _intToBytes (JSNum (len (data file))) 4 in
  let directory := directory ++ _intToBytes (JSNum (len (data file))) 4 in
  let directory := directory ++ _intToBytes (JSNum (len (name file))) 2 in
  let directory := directory ++ [0x00; 0x00] in
  let directory := directory ++ [0x00; 0x00] in
  let directory := directory ++ [0x00; 0x00] in
  let directory := directory ++ [0x00; 0x00] in
  let directory := directory ++ [0x00; 0x00; 0x00; 0x00] in
  let directory := directory ++ _intToBytes (JSNum offset) 4 in
  let directory := directory ++ name file in
  ret directory.

Definition _eoDirectory (entries size offset : JSValue) : jsstring :=
  let PKZIP_EOCD_SIGNATURE := [0x50; 0x4B; 0x05; 0x06] in
  let eocd := [] in
  let eocd := eocd ++ PKZIP_EOCD_SIGNATURE in
  let eocd := eocd ++ [0x00; 0x00] in
  let eocd := eocd ++ [0x00; 0x00] in
  let eocd := eocd ++ _intToBytes entries 2 in
  let eocd := eocd ++ _intToBytes entries 2 in
  let eocd := eocd ++ _intToBytes size 4 in
  let eocd := eocd ++ _intToBytes offset 4 in
  let eocd := eocd ++ [0x00; 0x00] in
  eocd.

(** *** Public methods *)

Definition add (attachment_id : jsstring) : M unit :=
  p <- host ;;
  match sys_attachment p attachment_id with
  | None => throw NoAttachmentRecord
  | Some grAttachment =>
      match att_file_name grAttachment with
      | None => throw TypeError
      | Some file_name =>
          let file :=
            {| sys_id := att_sys_id grAttachment;
               name := substring file_name 0 (MAX_FILENAME_LENGTH - 1);
               data := _binToString (att_bytes grAttachment) |} in
          z <- this ;;
          assign {| zCRC32 := zCRC32 z; files := files z ++ [file];
                    date := date z; _zipDate := _zipDate z |}
      end
  end.

(** The loop of [write] over [this.files], with its three variables. *)
Fixpoint write_files (fs : list FileData) (data_ directory : jsstring)
    (offset : Z) : M (jsstring * jsstring * Z) :=
  match fs with
  | [] => ret (data_, directory, offset)
  | file :: rest =>
      h <- _header file ;;
      let data_ := data_ ++ h in
      let data_ := data_ ++ data file in
      d <- _directory file offset ;;
      let directory := directory ++ d in
      let offset := offset + len data_ in
      write_files rest data_ directory offset
  end.

(** The part of [write] that assembles the archive: from the timestamp to
    the end record; it yields the variable [data]. *)
Definition write_archive : M jsstring :=
  p <- host ;;
  z <- this ;;
  let d := now p in
  assign {| zCRC32 := zCRC32 z; files := files z; date := Some d;
            _zipDate := Some {| zd_date := _getZipDate d;
                                zd_time := _getZipTime d |} |} ;;;
  z <- this ;;
  r <- write_files (files z) [] [] 0 ;;
  let '(data_, directory, offset) := r in
  let data_ := data_ ++ directory in
  z <- this ;;
  let data_ :=
    data_ ++ _eoDirectory (JSNum (len (files z))) (JSNum (len directory))
                          (JSStr directory) in
  ret data_.

(** [write]. The call of the sink is commented out in the source; the
    method ends by throwing. *)
Definition write (table record filename : option jsstring) : M jsstring :=
  p <- host ;;
  if nil table || negb (tableExists p (str table)) then throw InvalidTable
  else if nil record || negb (isEligibleSysID p (str record))
  then throw InvalidRecord
  else if nil filename then throw InvalidFilename
  else
    let filename := str filename in
    let filename :=
      if negb (endsWith filename ([0x2e] ++ ARCHIVE_EXTENSION))
      then filename ++ [0x2e] ++ ARCHIVE_EXTENSION
      else filename in
    data_ <- write_archive ;;
    p <- host ;;
    let exists_ := record_get p (str table) (str record) in
    if negb exists_ then throw (NoTargetRecord (str record) (str table))
    else throw UnsupportedPlatform.

(** *** The layout of what the methods emit *)

(** [count] code units of [s] from position [start]. *)
Definition slice (start count : nat) (s : jsstring) : jsstring :=
  firstn count (skipn start s).

(** The number a little-endian field spells. *)
Definition le_value (bytes : list Z) : Z :=
  fold_right (fun b acc => b + 256 * acc) 0 bytes.

(** The [n] low-order bytes of [w], least significant first. *)
Fixpoint le_bytes (w : Z) (n : nat) : list Z :=
  match n with
  | O => []
  | S k => w mod 256 :: le_bytes (w / 256) k
  end.

(** The checksum [this.CRC32.evaluate] gives on an engine, and the engine
    it leaves behind. *)
Definition crc_of (c : CRC32.t) (s : jsstring) : Z :=
  fst (CRC32.evaluate c (CRC32.OfString s)).
Definition memo (c : CRC32.t) : CRC32.t :=
  snd (CRC32.evaluate c (CRC32.OfBytes [])).
Definition with_engine (z : Zipper) (c : CRC32.t) : Zipper :=
  {| zCRC32 := c; files := files z; date := date z; _zipDate := _zipDate z |}.

(** The string [_header] returns, as a function of the [_zipDate] and the
    engine it reads from [this]. *)
Definition local_header (zd : ZipDate) (c : CRC32.t) (file : FileData)
  : jsstring :=
  [0x50; 0x4b; 0x03; 0x04] ++ PKZIP_VERSION ++ [0x00; 0x00] ++ [0x00; 0x00]
  ++ _intToBytes (JSNum (zd_time zd)) 2
  ++ _intToBytes (JSNum (zd_date zd)) 2
  ++ _intToBytes (JSNum (crc_of c (data file))) 4
  ++ _intToBytes (JSNum (len (data file))) 4
  ++ _intToBytes (JSNum (len (data file))) 4
  ++ _intToBytes (JSNum (len (name file))) 2
  ++ [0x00; 0x00]
  ++ name file.

(** The string [_directory] returns, likewise. *)
Definition central_record (zd : ZipDate) (c : CRC32.t) (file : FileData)
    (offset : Z) : jsstring :=
  [0x50; 0x4B; 0x01; 0x02] ++ PKZIP_VERSION ++ PKZIP_VERSION
  ++ [0x00; 0x00] ++ [0x00; 0x00]
  ++ _intToBytes (JSNum (zd_time zd)) 2
  ++ _intToBytes (JSNum (zd_date zd)) 2
  ++ _intToBytes (JSNum (crc_of c (data file))) 4
  ++ _intToBytes (JSNum (len (data file))) 4
  ++ _intToBytes (JSNum (len (data file))) 4
  ++ _intToBytes (JSNum (len (name file))) 2
  ++ [0x00; 0x00] ++ [0x00; 0x00] ++ [0x00; 0x00] ++ [0x00; 0x00]
  ++ [0x00; 0x00; 0x00; 0x00]
  ++ _intToBytes (JSNum offset) 4
  ++ name file.

(** One entry's local header followed by its data. *)
Definition local_block (zd : ZipDate) (c : CRC32.t) (file : FileData)
  : jsstring :=
  local_header zd c file ++ data file.

(** The values the variable [offset] of [write] has when the central
    record of each file is built, starting from [offset] with [data_]
    already emitted. *)
Fixpoint recorded_offsets (zd : ZipDate) (c : CRC32.t) (fs : list FileData)
    (data_ : jsstring) (offset : Z) : list Z :=
  match fs with
  | [] => []
  | file :: rest =>
      let data_ := data_ ++ local_block zd c file in
      offset :: recorded_offsets zd c rest data_ (offset + len data_)
  end.

(** The central directory for given files and recorded offsets. *)
Fixpoint central_directory (zd : ZipDate) (c : CRC32.t)
    (fs : list FileData) (offsets : list Z) : jsstring :=
  match fs, offsets with
  | file :: rest, o :: os =>
      central_record zd c file o ++ central_directory zd c rest os
  | _, _ => []
  end.

(** The central directory [write] builds, and the archive it assembles. *)
Definition directory_of (zd : ZipDate) (c : CRC32.t) (fs : list FileData)
  : jsstring :=
  central_directory zd c fs (recorded_offsets zd c fs [] 0).

Definition archive_of (zd : ZipDate) (c : CRC32.t) (fs : list FileData)
  : jsstring :=
  concat (map (local_block zd c) fs)
  ++ directory_of zd c fs
  ++ _eoDirectory (JSNum (len fs)) (JSNum (len (directory_of zd c fs)))
                  (JSStr (directory_of zd c fs)).

(** *** Sample inputs *)

(** A platform on which every table and record exists, with one attachment
    whose name has 300 characters, on 27 October 2024 at 13:45:59. *)
Definition sample_attachment : Attachment :=
  {| att_sys_id := [0x31]; att_file_name := Some (repeat 0x61 300);
     att_bytes := [0x68; 0x69] |}.

Definition sample_platform : Platform :=
  {| sys_attachment := fun _ => Some sample_attachment;
     tableExists := fun _ => true;
     isEligibleSysID := fun _ => true;
     record_get := fun _ _ => true;
     now := {| getFullYear := 2024; getMonth := 9; getDate := 27;
               getHours := 13; getMinutes := 45; getSeconds := 59 |};
     written := [] |}.

(** A platform that answers every lookup the same way: the attachment
    every identifier finds, and whether tables, identifiers and target
    records are accepted. *)
Definition platform_where (att : option Attachment)
    (table_ok id_ok target_ok : bool) : Platform :=
  {| sys_attachment := fun _ => att;
     tableExists := fun _ => table_ok;
     isEligibleSysID := fun _ => id_ok;
     record_get := fun _ _ => target_ok;
     now := {| getFullYear := 2024; getMonth := 9; getDate := 27;
               getHours := 13; getMinutes := 45; getSeconds := 59 |};
     written := [] |}.

(** An engine that reads every numeric-literal string as 0. *)
Definition no_literal : jsstring -> Z := fun _ => 0.

(** A file with a one-letter name and no content. *)
Definition empty_file (letter : Z) : FileData :=
  {| sys_id := []; name := [letter]; data := [] |}.

Definition zipper_with (fs : list FileData) : Zipper :=
  {| zCRC32 := CRC32.initialize None; files := fs; date := None;
     _zipDate := None |}.

(** The [_zipDate] that [write] derives from the clock of the platform. *)
Definition zipDate_of (p : Platform) : ZipDate :=
  {| zd_date := _getZipDate (now p); zd_time := _getZipTime (now p) |}.

(** Where the local header of entry [i] starts in the emitted stream: after
    the blocks of the entries before it. *)
Definition header_position (zd : ZipDate) (c : CRC32.t) (fs : list FileData)
    (i : nat) : Z :=
  len (concat (map (local_block zd c) (firstn i fs))).

(** The length of the local blocks of [fs]: 30 bytes of header, the name
    and the data for every file. *)
Definition blocks_length (fs : list FileData) : Z :=
  fold_right (fun g acc => 30 + len (name g) + len (data g) + acc) 0 fs.

(** Where the record of entry [i] starts within the central directory:
    46 bytes and the name for every entry before it. *)
Definition record_position (fs : list FileData) (i : nat) : Z :=
  fold_right (fun g acc => 46 + len (name g) + acc) 0 (firstn i fs).

(** An instance on which [write] has already set the timestamp. *)
Definition stamped_zipper (fs : list FileData) : Zipper :=
  {| zCRC32 := CRC32.initialize None; files := fs;
     date := Some (now sample_platform);
     _zipDate := Some (zipDate_of sample_platform) |}.

(** *** The bit-by-bit checksum *)

(** One round of the inner loop of [_buildCRCTable] on unsigned 32-bit
    numbers: shift right by one, and add the polynomial when the bit
    shifted out was set. *)
Definition bit_round (polynomial x : Z) : Z :=
  Z.lxor (Z.shiftr x 1) (if Z.odd x then polynomial else 0).

(** [evaluate] with the table lookup replaced by what the table is built
    from: eight rounds of [table_step] on the checksum combined with the
    low byte of the input. *)
Definition crc_bitwise (polynomial : Z) (bytes : list Z) : Z :=
  let crc := bitxor 0 (-1) in
  let crc :=
    fold_left
      (fun crc b =>
         Nat.iter 8 (CRC32.table_step polynomial) (bitxor crc (bitand b 0xFF)))
      bytes crc in
  shr (bitxor crc (-1)) 0.

(** C4 -- the reference vector: with the default polynomial the checksum of
    the single byte 0x00 is 0xD202EF8D. *)
Theorem evaluate_single_zero_byte :
  fst (CRC32.evaluate (CRC32.initialize None) (CRC32.OfBytes [0x00]))
  = 0xD202EF8D.
Proof. vm_compute. reflexivity. Qed.

(** C5 -- the checksum of the empty byte sequence is 0, whatever the
    polynomial and whatever the state of the table cache; the same holds
    for the empty string. *)
Theorem evaluate_empty (self : CRC32.t) :
  fst (CRC32.evaluate self (CRC32.OfBytes [])) = 0x00000000
  /\ fst (CRC32.evaluate self (CRC32.OfString [])) = 0x00000000.
Proof. split; reflexivity. Qed.

(** ** Arithmetic of the 32-bit operators *)

Lemma ToInt32_range (x : Z) : - 2 ^ 31 <= ToInt32 x < 2 ^ 31.
Proof.
  unfold ToInt32.
  pose proof (Z.mod_pos_bound (x + 2 ^ 31) (2 ^ 32) ltac:(lia)). lia.
Qed.

Lemma ToInt32_id (x : Z) : - 2 ^ 31 <= x < 2 ^ 31 -> ToInt32 x = x.
Proof.
  intros H. unfold ToInt32. rewrite Z.mod_small; lia.
Qed.

Lemma ToInt32_mod256 (x : Z) : ToInt32 x mod 256 = x mod 256.
Proof.
  unfold ToInt32. rewrite (Z.mod_eq (x + 2 ^ 31) (2 ^ 32)) by lia.
  replace (x + 2 ^ 31 - 2 ^ 32 * ((x + 2 ^ 31) / 2 ^ 32) - 2 ^ 31)
    with (x + (- (2 ^ 24 * ((x + 2 ^ 31) / 2 ^ 32))) * 256) by lia.
  apply Z_mod_plus_full.
Qed.

Lemma bitand_255 (x : Z) : bitand x 0xff = x mod 256.
Proof.
  unfold bitand. change (ToInt32 0xff) with (Z.ones 8).
  rewrite Z.land_ones by lia. apply ToInt32_mod256.
Qed.

Lemma sar_8 (x : Z) : sar x 8 = ToInt32 x / 256.
Proof.
  unfold sar. change (Z.land (ToUint32 8) 31) with 8.
  now rewrite Z.shiftr_div_pow2 by lia.
Qed.

Lemma byte_char (b : Z) : fromCharCode (bitand b 0xff) = [b mod 256].
Proof.
  unfold fromCharCode, ToUint16. rewrite bitand_255.
  pose proof (Z.mod_pos_bound b 256 ltac:(lia)).
  now rewrite Z.mod_small by lia.
Qed.

(** ** The two byte/string conversions *)

Lemma fold_left_push {A B : Type} (f : list A -> B -> list A) (g : B -> A)
    (l : list B) (acc : list A) :
  (forall a b, f a b = a ++ [g b]) ->
  fold_left f l acc = acc ++ map g l.
Proof.
  intros Hf. revert acc. induction l as [|b l IH]; intros acc; simpl.
  - now rewrite app_nil_r.
  - rewrite IH, Hf, <- app_assoc. reflexivity.
Qed.

Lemma _binToString_map (array : list Z) :
  _binToString array = map (fun b => b mod 256) array.
Proof.
  unfold _binToString.
  rewrite (fold_left_push _ (fun b => b mod 256)); [reflexivity|].
  intros a b. now rewrite byte_char.
Qed.

Lemma _strToByte_map (str : jsstring) :
  CRC32._strToByte str = map (fun c => c mod 256) str.
Proof.
  unfold CRC32._strToByte.
  rewrite (fold_left_push _ (fun b => b mod 256)); [reflexivity|].
  intros a b. now rewrite bitand_255.
Qed.

Lemma _binToString_length (array : list Z) :
  length (_binToString array) = length array.
Proof. rewrite _binToString_map. apply length_map. Qed.

(** ** [_intToBytes] writes the low-order bytes, least significant first *)

Lemma le_bytes_length (w : Z) (n : nat) : length (le_bytes w n) = n.
Proof. revert w. induction n; intros w; simpl; auto. Qed.

Lemma le_bytes_bytes (w : Z) (n : nat) :
  map (fun b => b mod 256) (le_bytes w n) = le_bytes w n.
Proof.
  revert w. induction n as [|n IH]; intros w; simpl; [reflexivity|].
  now rewrite IH, Z.mod_mod by lia.
Qed.

Lemma intToBytes_loop_bytes (n : nat) (w : Z) (acc : list Z) :
  intToBytes_loop w n acc = acc ++ le_bytes (ToInt32 w) n.
Proof.
  revert w acc. induction n as [|n IH]; intros w acc; simpl.
  - now rewrite app_nil_r.
  - rewrite IH, bitand_255, sar_8, <- app_assoc, ToInt32_mod256. simpl.
    rewrite (ToInt32_id (ToInt32 w / 256)); [reflexivity|].
    pose proof (ToInt32_range w) as Hr.
    split.
    + apply Z.div_le_lower_bound; lia.
    + apply Z.div_lt_upper_bound; lia.
Qed.

Lemma _intToBytes_bytes (v : JSValue) (n : nat) :
  _intToBytes v n = le_bytes (ToInt32 (ToInt32_value v)) n.
Proof.
  unfold _intToBytes. rewrite intToBytes_loop_bytes. simpl.
  rewrite le_bytes_length, Nat.sub_diag. simpl. rewrite app_nil_r.
  rewrite _binToString_map. apply le_bytes_bytes.
Qed.

Lemma _intToBytes_length (v : JSValue) (n : nat) :
  length (_intToBytes v n) = n.
Proof. rewrite _intToBytes_bytes. apply le_bytes_length. Qed.

Lemma le_value_le_bytes (w : Z) (n : nat) :
  le_value (le_bytes w n) = w mod 256 ^ Z.of_nat n.
Proof.
  revert w. induction n as [|n IH]; intros w.
  - simpl. now rewrite Z.mod_1_r.
  - cbn [le_bytes le_value fold_right]. fold (le_value (le_bytes (w / 256) n)).
    rewrite IH, Nat2Z.inj_succ, Z.pow_succ_r by lia.
    rewrite Z.rem_mul_r by lia. reflexivity.
Qed.

Lemma ToInt32_eq (x : Z) :
  ToInt32 x = x + (- ((x + 2 ^ 31) / 2 ^ 32)) * 2 ^ 32.
Proof. unfold ToInt32. rewrite Z.mod_eq by lia. lia. Qed.

Lemma le_value_intToBytes_4 (x : Z) :
  le_value (_intToBytes (JSNum x) 4) = x mod 2 ^ 32.
Proof.
  rewrite _intToBytes_bytes, le_value_le_bytes. cbn [ToInt32_value].
  rewrite (ToInt32_id (ToInt32 x)) by apply ToInt32_range.
  change (256 ^ Z.of_nat 4) with (2 ^ 32).
  rewrite ToInt32_eq. apply Z_mod_plus_full.
Qed.

Lemma le_value_intToBytes_2 (x : Z) :
  le_value (_intToBytes (JSNum x) 2) = x mod 2 ^ 16.
Proof.
  rewrite _intToBytes_bytes, le_value_le_bytes. cbn [ToInt32_value].
  rewrite (ToInt32_id (ToInt32 x)) by apply ToInt32_range.
  change (256 ^ Z.of_nat 2) with (2 ^ 16).
  rewrite ToInt32_eq.
  replace (x + - ((x + 2 ^ 31) / 2 ^ 32) * 2 ^ 32)
    with (x + (- ((x + 2 ^ 31) / 2 ^ 32) * 2 ^ 16) * 2 ^ 16) by lia.
  apply Z_mod_plus_full.
Qed.

(** ** The table cache does not change a checksum *)

Lemma evaluate_engine (c : CRC32.t) (a : CRC32.arg) :
  snd (CRC32.evaluate c a) = memo c.
Proof. reflexivity. Qed.

Lemma evaluate_memo (c : CRC32.t) (a : CRC32.arg) :
  fst (CRC32.evaluate (memo c) a) = fst (CRC32.evaluate c a).
Proof. reflexivity. Qed.

Lemma memo_memo (c : CRC32.t) : memo (memo c) = memo c.
Proof. reflexivity. Qed.

Lemma local_header_memo (zd : ZipDate) (c : CRC32.t) (f : FileData) :
  local_header zd (memo c) f = local_header zd c f.
Proof. reflexivity. Qed.

Lemma central_record_memo (zd : ZipDate) (c : CRC32.t) (f : FileData)
    (o : Z) :
  central_record zd (memo c) f o = central_record zd c f o.
Proof. reflexivity. Qed.

(** ** What the methods return *)

Lemma _header_run (zd : ZipDate) (f : FileData) (p : Platform) (z : Zipper) :
  _zipDate z = Some zd ->
  _header f p z
  = Returned (local_header zd (zCRC32 z) f) p (with_engine z (memo (zCRC32 z))).
Proof.
  intros Hzd. unfold _header, read_zipDate, CRC32_evaluate, bind, this, ret.
  rewrite Hzd. unfold local_header, with_engine, assign, crc_of.
  rewrite <- !app_assoc. reflexivity.
Qed.

Lemma _directory_run (zd : ZipDate) (f : FileData) (o : Z) (p : Platform)
    (z : Zipper) :
  _zipDate z = Some zd ->
  _directory f o p z
  = Returned (central_record zd (zCRC32 z) f o) p
             (with_engine z (memo (zCRC32 z))).
Proof.
  intros Hzd. unfold _directory, read_zipDate, CRC32_evaluate, bind, this, ret.
  rewrite Hzd. unfold central_record, with_engine, assign, crc_of.
  rewrite <- !app_assoc. reflexivity.
Qed.

Lemma local_blocks_memo (zd : ZipDate) (c : CRC32.t) (fs : list FileData) :
  map (local_block zd (memo c)) fs = map (local_block zd c) fs.
Proof. apply map_ext. reflexivity. Qed.

Lemma recorded_offsets_memo (zd : ZipDate) (c : CRC32.t)
    (fs : list FileData) (d : jsstring) (o : Z) :
  recorded_offsets zd (memo c) fs d o = recorded_offsets zd c fs d o.
Proof.
  revert d o. induction fs as [|f fs IH]; intros d o; simpl; [reflexivity|].
  rewrite IH. reflexivity.
Qed.

Lemma central_directory_memo (zd : ZipDate) (c : CRC32.t)
    (fs : list FileData) (os : list Z) :
  central_directory zd (memo c) fs os = central_directory zd c fs os.
Proof.
  revert os. induction fs as [|f fs IH]; intros [|o os]; simpl; try reflexivity.
  rewrite IH. reflexivity.
Qed.

Lemma recorded_offsets_length (zd : ZipDate) (c : CRC32.t)
    (fs : list FileData) (d : jsstring) (o : Z) :
  length (recorded_offsets zd c fs d o) = length fs.
Proof.
  revert d o. induction fs as [|f fs IH]; intros d o; simpl; auto.
Qed.

(** The loop of [write] never throws once [_zipDate] is set; it appends one
    block per file to [data] and one record per file to [directory]. *)
Lemma write_files_run (zd : ZipDate) (fs : list FileData) :
  forall (data_ directory : jsstring) (offset : Z) (p : Platform) (z : Zipper),
    _zipDate z = Some zd ->
    exists (offset' : Z) (z' : Zipper),
      write_files fs data_ directory offset p z
      = Returned
          (data_ ++ concat (map (local_block zd (zCRC32 z)) fs),
           directory
           ++ central_directory zd (zCRC32 z) fs
                (recorded_offsets zd (zCRC32 z) fs data_ offset),
           offset') p z'
      /\ files z' = files z /\ date z' = date z /\ _zipDate z' = Some zd.
Proof.
  induction fs as [|f fs IH]; intros data_ directory offset p z Hzd.
  - exists offset, z. simpl. unfold ret. now rewrite !app_nil_r.
  - cbn [write_files]. unfold bind at 1. rewrite (_header_run zd) by exact Hzd.
    unfold bind at 1.
    rewrite (_directory_run zd) by exact Hzd.
    destruct (IH ((data_ ++ local_header zd (zCRC32 z) f) ++ data f)
                 (directory ++ central_record zd (zCRC32 z) f offset)
                 (offset + len ((data_ ++ local_header zd (zCRC32 z) f)
                                ++ data f))
                 p (with_engine z (memo (zCRC32 z))) Hzd)
      as (offset' & z' & Hrun & Hf & Hd & Hz).
    exists offset', z'. split; [|auto].
    etransitivity; [exact Hrun|].
    cbn [with_engine zCRC32].
    rewrite local_blocks_memo, recorded_offsets_memo, central_directory_memo.
    cbn [map concat recorded_offsets central_directory]. unfold local_block.
    rewrite <- !app_assoc. reflexivity.
Qed.

(** The assembling part of [write] always returns: the blocks, then the
    central directory, then the end record. *)
Lemma write_archive_run (p : Platform) (z : Zipper) :
  exists z' : Zipper,
    write_archive p z
    = Returned (archive_of (zipDate_of p) (zCRC32 z) (files z)) p z'
    /\ files z' = files z
    /\ date z' = Some (now p)
    /\ _zipDate z' = Some (zipDate_of p).
Proof.
  unfold write_archive.
  unfold bind at 1, host. unfold bind at 1, this. unfold bind at 1, assign.
  unfold bind at 1.
  set (z1 := {| zCRC32 := zCRC32 z; files := files z; date := Some (now p);
                _zipDate := Some {| zd_date := _getZipDate (now p);
                                    zd_time := _getZipTime (now p) |} |}).
  unfold bind at 1.
  destruct (write_files_run (zipDate_of p) (files z1) [] [] 0 p z1 eq_refl)
    as (offset' & z' & Hrun & Hf & Hd & Hz).
  rewrite Hrun. unfold bind, ret. exists z'. rewrite Hf.
  repeat split; auto.
  unfold archive_of, directory_of. cbn [z1 files zCRC32 app].
  rewrite <- app_assoc. reflexivity.
Qed.

(** ** Fields of the emitted records *)

Lemma local_header_fields (zd : ZipDate) (c : CRC32.t) (f : FileData) :
  slice 10 2 (local_header zd c f) = _intToBytes (JSNum (zd_time zd)) 2
  /\ slice 12 2 (local_header zd c f) = _intToBytes (JSNum (zd_date zd)) 2
  /\ slice 18 4 (local_header zd c f) = _intToBytes (JSNum (len (data f))) 4
  /\ slice 22 4 (local_header zd c f) = _intToBytes (JSNum (len (data f))) 4
  /\ slice 26 2 (local_header zd c f) = _intToBytes (JSNum (len (name f))) 2.
Proof. repeat split; reflexivity. Qed.

Lemma central_record_fields (zd : ZipDate) (c : CRC32.t) (f : FileData)
    (o : Z) :
  slice 12 2 (central_record zd c f o) = _intToBytes (JSNum (zd_time zd)) 2
  /\ slice 14 2 (central_record zd c f o) = _intToBytes (JSNum (zd_date zd)) 2
  /\ slice 20 4 (central_record zd c f o) = _intToBytes (JSNum (len (data f))) 4
  /\ slice 24 4 (central_record zd c f o) = _intToBytes (JSNum (len (data f))) 4
  /\ slice 28 2 (central_record zd c f o) = _intToBytes (JSNum (len (name f))) 2
  /\ slice 42 4 (central_record zd c f o) = _intToBytes (JSNum o) 4.
Proof. repeat split; reflexivity. Qed.

(** C6 -- one timestamp per call: [write] reads the clock once, stores its
    DOS encoding in [_zipDate], and the time and date fields of every local
    header and of every central directory record it emits spell that one
    pair of values. *)
Theorem write_single_timestamp (p : Platform) (z : Zipper) :
  exists z' : Zipper,
    write_archive p z
    = Returned (archive_of (zipDate_of p) (zCRC32 z) (files z)) p z'
    /\ date z' = Some (now p)
    /\ _zipDate z' = Some (zipDate_of p)
    /\ (forall f : FileData,
          slice 10 2 (local_header (zipDate_of p) (zCRC32 z) f)
          = _intToBytes (JSNum (_getZipTime (now p))) 2
          /\ slice 12 2 (local_header (zipDate_of p) (zCRC32 z) f)
             = _intToBytes (JSNum (_getZipDate (now p))) 2)
    /\ (forall (f : FileData) (o : Z),
          slice 12 2 (central_record (zipDate_of p) (zCRC32 z) f o)
          = _intToBytes (JSNum (_getZipTime (now p))) 2
          /\ slice 14 2 (central_record (zipDate_of p) (zCRC32 z) f o)
             = _intToBytes (JSNum (_getZipDate (now p))) 2).
Proof.
  destruct (write_archive_run p z) as (z' & Hrun & _ & Hd & Hz).
  exists z'. repeat split; auto.
Qed.

(** ** Names *)

Lemma substring_prefix (s : jsstring) (n : Z) :
  0 <= n -> substring s 0 n = firstn (Z.to_nat n) s.
Proof.
  intros Hn. unfold substring, clamp, len.
  destruct (Z.le_ge_cases n (Z.of_nat (length s))) as [H|H].
  - replace (Z.min (Z.min (Z.max 0 0) (Z.of_nat (length s)))
                   (Z.min (Z.max n 0) (Z.of_nat (length s)))) with 0 by lia.
    replace (Z.max (Z.min (Z.max 0 0) (Z.of_nat (length s)))
                   (Z.min (Z.max n 0) (Z.of_nat (length s)))) with n by lia.
    now rewrite Z.sub_0_r.
  - replace (Z.min (Z.min (Z.max 0 0) (Z.of_nat (length s)))
                   (Z.min (Z.max n 0) (Z.of_nat (length s)))) with 0 by lia.
    replace (Z.max (Z.min (Z.max 0 0) (Z.of_nat (length s)))
                   (Z.min (Z.max n 0) (Z.of_nat (length s))))
      with (Z.of_nat (length s)) by lia.
    rewrite Z.sub_0_r, Nat2Z.id. simpl skipn.
    rewrite firstn_all, firstn_all2 by lia. reflexivity.
Qed.

(** C8 -- with no entries the assembled archive is the 22-byte end record
    alone: its signature followed by zeros. *)
Theorem write_archive_no_entries (p : Platform) (z : Zipper) :
  files z = [] ->
  exists z' : Zipper,
    write_archive p z
    = Returned [0x50; 0x4B; 0x05; 0x06; 0; 0; 0; 0; 0; 0; 0; 0;
                0; 0; 0; 0; 0; 0; 0; 0; 0; 0] p z'.
Proof.
  intros Hfiles.
  destruct (write_archive_run p z) as (z' & Hrun & _).
  exists z'. rewrite Hrun, Hfiles. reflexivity.
Qed.

(** C9 -- when the arguments pass validation and the target record exists,
    [write] throws the unsupported-platform error: it returns no attachment
    identifier, and the platform, with the list of writes its sink has
    received, is as it was before the call. *)
Theorem write_unsupported (p : Platform) (z : Zipper)
    (table record filename : option jsstring) :
  nil table = false ->
  tableExists p (str table) = true ->
  nil record = false ->
  isEligibleSysID p (str record) = true ->
  nil filename = false ->
  record_get p (str table) (str record) = true ->
  exists (p' : Platform) (z' : Zipper),
    write table record filename p z = Thrown UnsupportedPlatform p' z'
    /\ p' = p
    /\ written p' = written p.
Proof.
  intros Ht Hte Hr Hre Hf Hget.
  destruct (write_archive_run p z) as (z' & Hrun & _).
  exists p, z'. split; [|auto].
  unfold write. unfold bind at 1, host.
  rewrite Ht, Hte, Hr, Hre, Hf. cbn [orb negb].
  unfold bind at 1. rewrite Hrun. unfold bind, host.
  rewrite Hget. reflexivity.
Qed.

(** C10 -- on an array of numbers between 0 and 255, [_binToString]
    followed by [_strToByte] gives the array back. *)
Theorem bytes_string_roundtrip (array : list Z) :
  Forall (fun b => 0 <= b <= 255) array ->
  CRC32._strToByte (_binToString array) = array.
Proof.
  intros Hbytes. rewrite _strToByte_map, _binToString_map, map_map.
  induction Hbytes as [|b l Hb _ IH]; simpl; [reflexivity|].
  rewrite IH, Z.mod_mod, Z.mod_small by lia. reflexivity.
Qed.

(** ** Offsets *)

(** The cursor of [write] is advanced by the length of everything emitted
    so far, not by the length of the block just emitted: from the third
    entry on, the recorded offset is past the entry's local header. *)
Lemma recorded_offset_third (zd : ZipDate) (c : CRC32.t)
    (f0 f1 f2 : FileData) (rest : list FileData) :
  nth 2 (recorded_offsets zd c (f0 :: f1 :: f2 :: rest) [] 0) 0
  = header_position zd c (f0 :: f1 :: f2 :: rest) 2
    + len (local_block zd c f0).
Proof.
  unfold header_position. cbn [recorded_offsets nth firstn map concat app].
  unfold len. rewrite !length_app. cbn [length]. lia.
Qed.

(** The string handed to [_eoDirectory] where it expects the offset of the
    central directory is empty or starts with the letter P: the field is
    written as zero whatever the files are. *)
Lemma eocd_offset_field_zero (zd : ZipDate) (c : CRC32.t)
    (fs : list FileData) (entries size : JSValue) :
  slice 16 4 (_eoDirectory entries size (JSStr (directory_of zd c fs)))
  = [0; 0; 0; 0].
Proof. destruct fs as [|f fs]; reflexivity. Qed.

(** C1, at a failing input -- three files with one-letter names and no
    content: the local header of the third entry starts at byte 62 of the
    archive, and the central directory record of that entry records the
    offset 93. *)
Theorem third_entry_offset_diverges :
  let fs := [empty_file 0x61; empty_file 0x62; empty_file 0x63] in
  exists (archive : jsstring) (z' : Zipper),
    write_archive sample_platform (zipper_with fs)
    = Returned archive sample_platform z'
    /\ header_position (zipDate_of sample_platform) (CRC32.initialize None)
                       fs 2 = 62
    /\ slice 62 4 archive = [0x50; 0x4b; 0x03; 0x04]
    /\ slice (93 + 2 * 47) 4 archive = [0x50; 0x4B; 0x01; 0x02]
    /\ le_value (slice (93 + 2 * 47 + 42) 4 archive) = 93.
Proof.
  intros fs.
  destruct (write_archive_run sample_platform (zipper_with fs))
    as (z' & Hrun & _).
  eexists; exists z'. split; [exact Hrun|].
  repeat split; vm_compute; reflexivity.
Qed.

(** C2, at a failing input -- one file with a one-letter name and no
    content: the archive has 100 bytes, of which the local block takes 31
    and the central directory 47; the end record, at byte 78, gives the
    size 47 and the offset 0. *)
Theorem eocd_offset_diverges :
  let fs := [empty_file 0x61] in
  exists (archive : jsstring) (z' : Zipper),
    write_archive sample_platform (zipper_with fs)
    = Returned archive sample_platform z'
    /\ len archive = 100
    /\ len (concat (map (local_block (zipDate_of sample_platform)
                                     (CRC32.initialize None)) fs)) = 31
    /\ slice 78 4 archive = [0x50; 0x4B; 0x05; 0x06]
    /\ le_value (slice (78 + 12) 4 archive) = 47
    /\ le_value (slice (78 + 16) 4 archive) = 0.
Proof.
  intros fs.
  destruct (write_archive_run sample_platform (zipper_with fs))
    as (z' & Hrun & _).
  eexists; exists z'. split; [exact Hrun|].
  repeat split; vm_compute; reflexivity.
Qed.

(** ** Further properties of the checksum engine *)

Lemma lxor_mod_pow2 (a b n : Z) :
  0 <= n ->
  Z.lxor a b mod 2 ^ n = Z.lxor (a mod 2 ^ n) (b mod 2 ^ n).
Proof.
  intros Hn. apply Z.bits_inj'. intros i Hi.
  rewrite Z.lxor_spec, !Z.testbit_mod_pow2, Z.lxor_spec by lia.
  destruct (i <? n); simpl; reflexivity.
Qed.

Lemma crc_step_low_byte (crcTable : list Z) (crc b : Z) :
  CRC32.crc_step crcTable crc (b mod 256) = CRC32.crc_step crcTable crc b.
Proof.
  unfold CRC32.crc_step. f_equal. f_equal.
  rewrite !bitand_255. unfold bitxor.
  change 256 with (2 ^ 8).
  rewrite (lxor_mod_pow2 _ (ToInt32 (b mod 2 ^ 8))) by lia.
  rewrite (lxor_mod_pow2 _ (ToInt32 b)) by lia.
  change (2 ^ 8) with 256. rewrite !ToInt32_mod256, Z.mod_mod by lia.
  reflexivity.
Qed.

Lemma fold_crc_low_bytes (crcTable : list Z) (bytes : list Z) (crc : Z) :
  fold_left (CRC32.crc_step crcTable) (map (fun b => b mod 256) bytes) crc
  = fold_left (CRC32.crc_step crcTable) bytes crc.
Proof.
  revert crc. induction bytes as [|b bytes IH]; intros crc; simpl.
  - reflexivity.
  - rewrite crc_step_low_byte. apply IH.
Qed.

Lemma checksum_range (self : CRC32.t) (a : CRC32.arg) :
  0 <= fst (CRC32.evaluate self a) < 2 ^ 32.
Proof.
  unfold CRC32.evaluate. cbn [fst]. unfold shr.
  change (Z.land (ToUint32 0) 31) with 0. rewrite Z.shiftr_0_r.
  unfold ToUint32. apply Z.mod_pos_bound. lia.
Qed.

(** X1 -- the checksum is an unsigned 32-bit number, for every engine and
    every argument, string or array. *)
Theorem evaluate_unsigned (self : CRC32.t) (a : CRC32.arg) :
  0 <= fst (CRC32.evaluate self a) < 2 ^ 32.
Proof. apply checksum_range. Qed.

(** X2 -- only the low eight bits of each array element enter the
    checksum: an array of signed bytes and the array of the same bytes
    taken modulo 256 have the same checksum. *)
Theorem evaluate_low_bytes (self : CRC32.t) (bytes : list Z) :
  fst (CRC32.evaluate self (CRC32.OfBytes (map (fun b => b mod 256) bytes)))
  = fst (CRC32.evaluate self (CRC32.OfBytes bytes)).
Proof.
  unfold CRC32.evaluate. cbn [fst]. now rewrite fold_crc_low_bytes.
Qed.

Lemma checksum_of_binary_string (self : CRC32.t) (bytes : list Z) :
  fst (CRC32.evaluate self (CRC32.OfString (_binToString bytes)))
  = fst (CRC32.evaluate self (CRC32.OfBytes bytes)).
Proof.
  unfold CRC32.evaluate. cbn [fst].
  rewrite _strToByte_map, _binToString_map, !fold_crc_low_bytes.
  reflexivity.
Qed.

(** X3 -- the checksum of the binary string that [_binToString] makes of an
    array equals the checksum of the array itself, whatever integers the
    array holds. *)
Theorem evaluate_binToString (self : CRC32.t) (bytes : list Z) :
  fst (CRC32.evaluate self (CRC32.OfString (_binToString bytes)))
  = fst (CRC32.evaluate self (CRC32.OfBytes bytes)).
Proof. apply checksum_of_binary_string. Qed.

(** X4 -- [_strToByte] keeps the length of the string and yields numbers
    between 0 and 255, also for characters above 255, of which it keeps the
    low byte. *)
Theorem _strToByte_bytes (str : jsstring) :
  length (CRC32._strToByte str) = length str
  /\ Forall (fun b => 0 <= b <= 255) (CRC32._strToByte str)
  /\ CRC32._strToByte str = map (fun c => c mod 256) str.
Proof.
  rewrite _strToByte_map. split; [apply length_map|]. split; [|reflexivity].
  apply Forall_forall. intros b Hb. apply in_map_iff in Hb.
  destruct Hb as (c & <- & _).
  pose proof (Z.mod_pos_bound c 256 ltac:(lia)). lia.
Qed.

(** ** Further properties of the private helpers *)

(** X5 -- [_binToString] yields one character per array element, each
    between 0 and 255: the element modulo 256, so that a negative (signed)
    byte [b] becomes [b + 256]. *)
Theorem _binToString_chars (array : list Z) :
  length (_binToString array) = length array
  /\ Forall (fun c => 0 <= c <= 255) (_binToString array)
  /\ _binToString array = map (fun b => b mod 256) array
  /\ (forall b : Z, - 128 <= b < 0 -> _binToString [b] = [b + 256]).
Proof.
  rewrite _binToString_map. split; [apply length_map|].
  split; [|split; [reflexivity|]].
  - apply Forall_forall. intros c Hc. apply in_map_iff in Hc.
    destruct Hc as (b & <- & _).
    pose proof (Z.mod_pos_bound b 256 ltac:(lia)). lia.
  - intros b Hb. rewrite _binToString_map. cbn [map]. f_equal.
    rewrite <- (Z.mod_small (b + 256) 256) by lia.
    replace (b + 256) with (b + 1 * 256) by lia.
    now rewrite Z_mod_plus_full.
Qed.

(** X6 -- on a binary string (every character between 0 and 255)
    [_strToByte] followed by [_binToString] gives the string back. *)
Theorem string_bytes_roundtrip (str : jsstring) :
  Forall (fun c => 0 <= c <= 255) str ->
  _binToString (CRC32._strToByte str) = str.
Proof.
  intros Hstr. rewrite _binToString_map, _strToByte_map, map_map.
  induction Hstr as [|c l Hc _ IH]; simpl; [reflexivity|].
  rewrite IH, Z.mod_mod, Z.mod_small by lia. reflexivity.
Qed.

Lemma le_bytes_range (w : Z) (n : nat) :
  Forall (fun b => 0 <= b <= 255) (le_bytes w n).
Proof.
  revert w. induction n as [|n IH]; intros w; simpl; constructor.
  - pose proof (Z.mod_pos_bound w 256 ltac:(lia)). lia.
  - apply IH.
Qed.

Lemma le_value_intToBytes (x : Z) (byteCount : nat) :
  le_value (_intToBytes (JSNum x) byteCount)
  = ToInt32 x mod 256 ^ Z.of_nat byteCount.
Proof.
  rewrite _intToBytes_bytes. cbn [ToInt32_value].
  rewrite (ToInt32_id (ToInt32 x)) by apply ToInt32_range.
  apply le_value_le_bytes.
Qed.

(** X7 -- [_intToBytes] always yields exactly [byteCount] characters, each
    between 0 and 255, and read as a little-endian number they spell the
    value's 32-bit two's complement form modulo 256^byteCount: a number is
    cut to 32 bits before any byte is taken, however wide the field. *)
Theorem _intToBytes_spells (x : Z) (byteCount : nat) :
  length (_intToBytes (JSNum x) byteCount) = byteCount
  /\ Forall (fun b => 0 <= b <= 255) (_intToBytes (JSNum x) byteCount)
  /\ le_value (_intToBytes (JSNum x) byteCount)
     = ToInt32 x mod 256 ^ Z.of_nat byteCount.
Proof.
  rewrite _intToBytes_bytes. cbn [ToInt32_value].
  rewrite (ToInt32_id (ToInt32 x)) by apply ToInt32_range.
  split; [apply le_bytes_length|]. split; [apply le_bytes_range|].
  apply le_value_le_bytes.
Qed.

(** X8 -- a non-negative value that fits a field of at most four bytes is
    read back unchanged from the bytes [_intToBytes] writes. *)
Theorem _intToBytes_roundtrip (x : Z) (byteCount : nat) :
  (byteCount <= 4)%nat ->
  0 <= x < 256 ^ Z.of_nat byteCount ->
  le_value (_intToBytes (JSNum x) byteCount) = x.
Proof.
  intros Hn Hx.
  rewrite le_value_intToBytes.
  assert (H4 : 256 ^ Z.of_nat byteCount * 256 ^ (4 - Z.of_nat byteCount)
               = 2 ^ 32).
  { rewrite <- Z.pow_add_r by lia.
    replace (Z.of_nat byteCount + (4 - Z.of_nat byteCount)) with 4 by lia.
    reflexivity. }
  rewrite ToInt32_eq, <- H4.
  replace (x + - ((x + 2 ^ 31)
                  / (256 ^ Z.of_nat byteCount * 256 ^ (4 - Z.of_nat byteCount)))
               * (256 ^ Z.of_nat byteCount * 256 ^ (4 - Z.of_nat byteCount)))
    with (x + (- ((x + 2 ^ 31)
                  / (256 ^ Z.of_nat byteCount * 256 ^ (4 - Z.of_nat byteCount)))
               * 256 ^ (4 - Z.of_nat byteCount)) * 256 ^ Z.of_nat byteCount)
    by ring.
  rewrite Z_mod_plus_full. apply Z.mod_small. exact Hx.
Qed.

(** ** The DOS time and date *)

Lemma land_shifted_small (a b k : Z) :
  0 <= k -> 0 <= b < 2 ^ k -> Z.land (a * 2 ^ k) b = 0.
Proof.
  intros Hk Hb. apply Z.bits_inj'. intros i Hi.
  rewrite Z.land_spec, Z.bits_0.
  destruct (Z.lt_ge_cases i k) as [Hlt|Hge].
  - now rewrite Z.mul_pow2_bits_low by lia.
  - rewrite <- (Z.mod_small b (2 ^ k)) by lia.
    rewrite Z.mod_pow2_bits_high by lia. apply andb_false_r.
Qed.

Lemma lor_shifted_small (a b k : Z) :
  0 <= k -> 0 <= b < 2 ^ k -> Z.lor (a * 2 ^ k) b = a * 2 ^ k + b.
Proof.
  intros Hk Hb. rewrite <- (Z.add_lor_land (a * 2 ^ k) b).
  rewrite land_shifted_small by assumption. lia.
Qed.

Lemma pack_time (a b c : Z) :
  0 <= a < 32 -> 0 <= b < 64 -> 0 <= c < 32 ->
  bitor (bitor (shl a 11) (shl b 5)) c = a * 2048 + b * 32 + c.
Proof.
  intros Ha Hb Hc. unfold bitor, shl.
  change (Z.land (ToUint32 11) 31) with 11.
  change (Z.land (ToUint32 5) 31) with 5.
  rewrite (ToInt32_id a), (ToInt32_id b), (ToInt32_id c) by lia.
  rewrite !Z.shiftl_mul_pow2 by lia.
  rewrite !(ToInt32_id (_ * 2 ^ _)) by lia.
  rewrite (lor_shifted_small a (b * 2 ^ 5) 11) by lia.
  rewrite ToInt32_id by lia.
  replace (a * 2 ^ 11 + b * 2 ^ 5) with ((a * 64 + b) * 2 ^ 5) by lia.
  rewrite lor_shifted_small by lia. lia.
Qed.

Lemma pack_date (a b c : Z) :
  0 <= a < 128 -> 0 <= b < 16 -> 0 <= c < 32 ->
  bitor (bitor (shl a 9) (shl b 5)) c = a * 512 + b * 32 + c.
Proof.
  intros Ha Hb Hc. unfold bitor, shl.
  change (Z.land (ToUint32 9) 31) with 9.
  change (Z.land (ToUint32 5) 31) with 5.
  rewrite (ToInt32_id a), (ToInt32_id b), (ToInt32_id c) by lia.
  rewrite !Z.shiftl_mul_pow2 by lia.
  rewrite !(ToInt32_id (_ * 2 ^ _)) by lia.
  rewrite (lor_shifted_small a (b * 2 ^ 5) 9) by lia.
  rewrite ToInt32_id by lia.
  replace (a * 2 ^ 9 + b * 2 ^ 5) with ((a * 16 + b) * 2 ^ 5) by lia.
  rewrite lor_shifted_small by lia. lia.
Qed.

(** X9 -- for a time of day (hours 0..23, minutes 0..59, seconds 0..59)
    the DOS time is hours * 2048 + minutes * 32 + seconds / 2; it fits 16
    bits, and the two bytes [_intToBytes] writes for it spell it exactly. *)
Theorem _getZipTime_packs (d : JSDate) :
  0 <= getHours d <= 23 ->
  0 <= getMinutes d <= 59 ->
  0 <= getSeconds d <= 59 ->
  _getZipTime d = getHours d * 2048 + getMinutes d * 32 + getSeconds d / 2
  /\ 0 <= _getZipTime d < 2 ^ 16
  /\ le_value (_intToBytes (JSNum (_getZipTime d)) 2) = _getZipTime d.
Proof.
  intros Hh Hm Hs.
  assert (Hs2 : 0 <= getSeconds d / 2 < 30).
  { split; [apply Z.div_pos; lia|apply Z.div_lt_upper_bound; lia]. }
  assert (Heq : _getZipTime d
                = getHours d * 2048 + getMinutes d * 32 + getSeconds d / 2).
  { unfold _getZipTime. apply pack_time; lia. }
  assert (Hr : 0 <= _getZipTime d < 2 ^ 16) by (rewrite Heq; lia).
  repeat split; try lia.
  rewrite le_value_intToBytes_2. now apply Z.mod_small.
Qed.

(** X10 -- for a calendar date from 1980 to 2107 (month index 0..11, day
    1..31) the DOS date is (year - 1980) * 512 + (month + 1) * 32 + day; it
    fits 16 bits, and the two bytes written for it spell it exactly. *)
Theorem _getZipDate_packs (d : JSDate) :
  1980 <= getFullYear d <= 2107 ->
  0 <= getMonth d <= 11 ->
  1 <= getDate d <= 31 ->
  _getZipDate d
  = (getFullYear d - 1980) * 512 + (getMonth d + 1) * 32 + getDate d
  /\ 0 <= _getZipDate d < 2 ^ 16
  /\ le_value (_intToBytes (JSNum (_getZipDate d)) 2) = _getZipDate d.
Proof.
  intros Hy Hm Hd.
  assert (Heq : _getZipDate d
                = (getFullYear d - 1980) * 512 + (getMonth d + 1) * 32
                  + getDate d).
  { unfold _getZipDate. apply pack_date; lia. }
  assert (Hr : 0 <= _getZipDate d < 2 ^ 16) by (rewrite Heq; lia).
  repeat split; try lia.
  rewrite le_value_intToBytes_2. now apply Z.mod_small.
Qed.

(** ** [add] and [write]: errors and what they leave behind *)

(** X11 -- [add] with an identifier for which [sys_attachment] has no
    record throws, and leaves the platform and the instance, its list of
    files included, as they were. *)
Theorem add_missing_record (p : Platform) (z : Zipper) (id : jsstring) :
  sys_attachment p id = None ->
  add id p z = Thrown NoAttachmentRecord p z.
Proof.
  intros Hget. unfold add, bind, host. now rewrite Hget.
Qed.

(** X12 -- [add] stores the content of the attachment one character per
    byte: the stored data has as many characters as the attachment has
    bytes, [_strToByte] reads the bytes back modulo 256, and on any engine
    the checksum of the stored data is the checksum of the attachment's
    byte array. The engine and the timestamp of the instance are not
    touched. *)
Theorem add_stores_content (p : Platform) (z : Zipper) (id : jsstring)
    (gr : Attachment) (file_name : jsstring) :
  sys_attachment p id = Some gr ->
  att_file_name gr = Some file_name ->
  exists (f : FileData) (z' : Zipper),
    add id p z = Returned tt p z'
    /\ files z' = files z ++ [f]
    /\ zCRC32 z' = zCRC32 z /\ date z' = date z /\ _zipDate z' = _zipDate z
    /\ sys_id f = att_sys_id gr
    /\ len (data f) = len (att_bytes gr)
    /\ CRC32._strToByte (data f) = map (fun b => b mod 256) (att_bytes gr)
    /\ (forall c : CRC32.t,
          crc_of c (data f)
          = fst (CRC32.evaluate c (CRC32.OfBytes (att_bytes gr)))).
Proof.
  intros Hget Hname.
  eexists {| sys_id := att_sys_id gr; name := _;
             data := _binToString (att_bytes gr) |}.
  eexists. split.
  { unfold add, bind, host. rewrite Hget, Hname. reflexivity. }
  cbn [files zCRC32 date _zipDate sys_id data].
  repeat split.
  - unfold len. f_equal. rewrite _binToString_map. apply length_map.
  - rewrite _strToByte_map, _binToString_map, map_map.
    apply map_ext. intros b. apply Z.mod_mod. lia.
  - intros c. apply checksum_of_binary_string.
Qed.


(** X14 -- [write] never returns: whatever its arguments and whatever the
    instance holds, it ends by throwing, and the platform (the writes its
    sink has received included) is as before. *)
Theorem write_never_returns (p : Platform) (z : Zipper)
    (table record filename : option jsstring) :
  exists (e : Error) (z' : Zipper),
    write table record filename p z = Thrown e p z'.
Proof.
  unfold write. unfold bind at 1, host.
  destruct (nil table || negb (tableExists p (str table)));
    [do 2 eexists; reflexivity|].
  destruct (nil record || negb (isEligibleSysID p (str record)));
    [do 2 eexists; reflexivity|].
  destruct (nil filename); [do 2 eexists; reflexivity|].
  destruct (write_archive_run p z) as (z' & Hrun & _).
  unfold bind at 1. rewrite Hrun. unfold bind, host.
  destruct (negb (record_get p (str table) (str record)));
    do 2 eexists; reflexivity.
Qed.

(** X15 -- a missing or unknown table is reported first, whatever the
    other arguments are, and the instance is left untouched: no timestamp
    is taken. *)
Theorem write_invalid_table (p : Platform) (z : Zipper)
    (table record filename : option jsstring) :
  nil table = true \/ tableExists p (str table) = false ->
  write table record filename p z = Thrown InvalidTable p z.
Proof.
  intros H. unfold write. unfold bind at 1, host.
  replace (nil table || negb (tableExists p (str table))) with true;
    [reflexivity|].
  destruct H as [-> | ->]; [reflexivity|]. now rewrite orb_true_r.
Qed.

(** X16 -- with a valid table, a missing or ineligible record identifier
    is reported whatever the file name is, and the instance is left
    untouched. *)
Theorem write_invalid_record (p : Platform) (z : Zipper)
    (table record filename : option jsstring) :
  nil table = false ->
  tableExists p (str table) = true ->
  nil record = true \/ isEligibleSysID p (str record) = false ->
  write table record filename p z = Thrown InvalidRecord p z.
Proof.
  intros Ht Hte H. unfold write. unfold bind at 1, host.
  rewrite Ht, Hte. cbn [orb negb].
  replace (nil record || negb (isEligibleSysID p (str record))) with true;
    [reflexivity|].
  destruct H as [-> | ->]; [reflexivity|]. now rewrite orb_true_r.
Qed.

(** X17 -- with a valid table and record identifier, a missing or empty
    file name is reported, and the instance is left untouched. *)
Theorem write_invalid_filename (p : Platform) (z : Zipper)
    (table record filename : option jsstring) :
  nil table = false ->
  tableExists p (str table) = true ->
  nil record = false ->
  isEligibleSysID p (str record) = true ->
  nil filename = true ->
  write table record filename p z = Thrown InvalidFilename p z.
Proof.
  intros Ht Hte Hr Hre Hf. unfold write. unfold bind at 1, host.
  now rewrite Ht, Hte, Hr, Hre, Hf.
Qed.

(** X18 -- when the arguments are valid and the target record does not
    exist, [write] reports it with the record and table it was given; this
    happens after the archive has been assembled, so the instance keeps
    the timestamp just taken, and its files are unchanged. *)
Theorem write_missing_target (p : Platform) (z : Zipper)
    (table record filename : option jsstring) :
  nil table = false ->
  tableExists p (str table) = true ->
  nil record = false ->
  isEligibleSysID p (str record) = true ->
  nil filename = false ->
  record_get p (str table) (str record) = false ->
  exists z' : Zipper,
    write table record filename p z
    = Thrown (NoTargetRecord (str record) (str table)) p z'
    /\ files z' = files z
    /\ date z' = Some (now p)
    /\ _zipDate z' = Some (zipDate_of p).
Proof.
  intros Ht Hte Hr Hre Hf Hget.
  destruct (write_archive_run p z) as (z' & Hrun & Hfiles & Hd & Hz).
  exists z'. split; [|auto].
  unfold write. unfold bind at 1, host.
  rewrite Ht, Hte, Hr, Hre, Hf. cbn [orb negb].
  unfold bind at 1. rewrite Hrun. unfold bind, host.
  rewrite Hget. reflexivity.
Qed.

(** ** Lengths and positions in the archive *)

Lemma slice_app_mid (a b c : jsstring) :
  slice (length a) (length b) (a ++ b ++ c) = b.
Proof.
  unfold slice. rewrite skipn_app, skipn_all, Nat.sub_diag. cbn [skipn app].
  rewrite firstn_app, firstn_all, Nat.sub_diag. cbn [firstn].
  apply app_nil_r.
Qed.

Lemma local_header_length (zd : ZipDate) (c : CRC32.t) (f : FileData) :
  length (local_header zd c f) = (30 + length (name f))%nat.
Proof.
  unfold local_header. rewrite !length_app, !_intToBytes_length.
  reflexivity.
Qed.

Lemma central_record_length (zd : ZipDate) (c : CRC32.t) (f : FileData)
    (o : Z) :
  length (central_record zd c f o) = (46 + length (name f))%nat.
Proof.
  unfold central_record. rewrite !length_app, !_intToBytes_length.
  reflexivity.
Qed.

Lemma _eoDirectory_length (entries size offset : JSValue) :
  length (_eoDirectory entries size offset) = 22%nat.
Proof.
  unfold _eoDirectory. rewrite !length_app, !_intToBytes_length.
  reflexivity.
Qed.

Lemma local_blocks_length (zd : ZipDate) (c : CRC32.t) (fs : list FileData) :
  len (concat (map (local_block zd c) fs))
  = fold_right (fun f acc => 30 + len (name f) + len (data f) + acc) 0 fs.
Proof.
  induction fs as [|f fs IH]; [reflexivity|].
  cbn [map concat fold_right]. rewrite <- IH. unfold len, local_block.
  rewrite !length_app, local_header_length. lia.
Qed.

Lemma central_directory_length (zd : ZipDate) (c : CRC32.t)
    (fs : list FileData) (d : jsstring) (o : Z) :
  len (central_directory zd c fs (recorded_offsets zd c fs d o))
  = fold_right (fun f acc => 46 + len (name f) + acc) 0 fs.
Proof.
  revert d o. induction fs as [|f fs IH]; intros d o; [reflexivity|].
  cbn [recorded_offsets central_directory fold_right].
  rewrite <- (IH (d ++ local_block zd c f)
                 (o + len (d ++ local_block zd c f))).
  unfold len. rewrite !length_app, central_record_length. lia.
Qed.


Lemma nth_error_split_blocks (zd : ZipDate) (c : CRC32.t)
    (fs : list FileData) (i : nat) (f : FileData) :
  nth_error fs i = Some f ->
  concat (map (local_block zd c) fs)
  = concat (map (local_block zd c) (firstn i fs))
    ++ local_block zd c f
    ++ concat (map (local_block zd c) (skipn (S i) fs)).
Proof.
  revert i. induction fs as [|g fs IH]; intros [|i] H; try discriminate.
  - injection H as ->. reflexivity.
  - cbn [firstn skipn map concat]. rewrite (IH i H), <- app_assoc.
    reflexivity.
Qed.

(** X22 -- in the archive [write] assembles, the local header of every
    entry, followed by the entry's data, stands right after the blocks of
    the entries added before it. *)
Theorem blocks_in_order (p : Platform) (z : Zipper) :
  exists (archive : jsstring) (z' : Zipper),
    write_archive p z = Returned archive p z'
    /\ forall (i : nat) (f : FileData),
         nth_error (files z) i = Some f ->
         slice (Z.to_nat (header_position (zipDate_of p) (zCRC32 z)
                                          (files z) i))
               (length (local_header (zipDate_of p) (zCRC32 z) f ++ data f))
               archive
         = local_header (zipDate_of p) (zCRC32 z) f ++ data f.
Proof.
  destruct (write_archive_run p z) as (z' & Hrun & _).
  exists (archive_of (zipDate_of p) (zCRC32 z) (files z)), z'.
  split; [exact Hrun|]. intros i f Hi.
  unfold archive_of, header_position, len. rewrite Nat2Z.id.
  rewrite (nth_error_split_blocks _ _ _ _ _ Hi), <- !app_assoc.
  apply (slice_app_mid _ (local_block (zipDate_of p) (zCRC32 z) f)).
Qed.

Lemma directory_of_empty_or_P (zd : ZipDate) (c : CRC32.t)
    (fs : list FileData) :
  ToInt32_string (directory_of zd c fs) = 0.
Proof. destruct fs; reflexivity. Qed.

(** X23 -- the archive ends with the 22-byte end record: its signature,
    the number of files modulo 2^16 written twice, the length of the
    central directory (46 bytes plus the name for every file) modulo 2^32,
    and four zero bytes where the offset of the central directory
    belongs. *)
Theorem end_record_fields (p : Platform) (z : Zipper) :
  exists (archive eocd : jsstring) (z' : Zipper),
    write_archive p z = Returned archive p z'
    /\ eocd = skipn (length archive - 22) archive
    /\ length eocd = 22%nat
    /\ slice 0 4 eocd = [0x50; 0x4B; 0x05; 0x06]
    /\ le_value (slice 8 2 eocd) = len (files z) mod 2 ^ 16
    /\ le_value (slice 10 2 eocd) = len (files z) mod 2 ^ 16
    /\ le_value (slice 12 4 eocd)
       = fold_right (fun f acc => 46 + len (name f) + acc) 0 (files z)
         mod 2 ^ 32
    /\ slice 16 4 eocd = [0; 0; 0; 0].
Proof.
  destruct (write_archive_run p z) as (z' & Hrun & _).
  set (zd := zipDate_of p) in *. set (c := zCRC32 z) in *.
  set (fs := files z) in *.
  set (e := _eoDirectory (JSNum (len fs)) (JSNum (len (directory_of zd c fs)))
                         (JSStr (directory_of zd c fs))).
  exists (archive_of zd c fs), e, z'.
  split; [exact Hrun|].
  assert (He : e = skipn (length (archive_of zd c fs) - 22)
                     (archive_of zd c fs)).
  { unfold archive_of. fold e. rewrite app_assoc.
    rewrite (length_app _ e). unfold e at 2. rewrite _eoDirectory_length.
    rewrite Nat.add_sub, skipn_app, skipn_all, Nat.sub_diag. reflexivity. }
  split; [exact He|].
  split; [apply _eoDirectory_length|].
  split; [reflexivity|].
  split; [exact (le_value_intToBytes_2 (len fs))|].
  split; [exact (le_value_intToBytes_2 (len fs))|].
  split.
  - change (le_value (slice 12 4 e))
      with (le_value (_intToBytes (JSNum (len (directory_of zd c fs))) 4)).
    rewrite le_value_intToBytes_4. unfold directory_of.
    now rewrite central_directory_length.
  - apply eocd_offset_field_zero.
Qed.

(** ** The offsets the central directory records *)

Lemma header_position_cons (zd : ZipDate) (c : CRC32.t) (f : FileData)
    (fs : list FileData) (j : nat) :
  header_position zd c (f :: fs) (S j)
  = len (local_block zd c f) + header_position zd c fs j.
Proof.
  unfold header_position, len. cbn [firstn map concat].
  rewrite length_app. lia.
Qed.

Lemma recorded_offsets_sum (zd : ZipDate) (c : CRC32.t) (fs : list FileData) :
  forall (d : jsstring) (o : Z) (i : nat),
    (i < length fs)%nat ->
    nth i (recorded_offsets zd c fs d o) 0
    = o + fold_right Z.add 0
            (map (fun j => len d + header_position zd c fs j) (seq 1 i)).
Proof.
  induction fs as [|f fs IH]; intros d o i Hi; [inversion Hi|].
  destruct i as [|i]; cbn [recorded_offsets nth].
  - cbn. lia.
  - rewrite IH by (cbn [length] in Hi; lia).
    cbn [seq map fold_right]. rewrite <- (seq_shift i 1), map_map.
    rewrite (map_ext (fun j => len d + header_position zd c (f :: fs) (S j))
                     (fun j => len (d ++ local_block zd c f)
                               + header_position zd c fs j)).
    + rewrite (header_position_cons zd c f fs 0).
      unfold header_position at 2. cbn [firstn map concat].
      unfold len at 1 4 5. rewrite length_app. cbn [length]. unfold len. lia.
    + intros j. rewrite header_position_cons. unfold len.
      rewrite length_app. lia.
Qed.

(** ** Serializing again, and serializing after [add] *)

Lemma write_files_engine (zd : ZipDate) (fs : list FileData) :
  forall (d dir : jsstring) (o : Z) (p p' : Platform) (z z' : Zipper)
         (r : jsstring * jsstring * Z),
    _zipDate z = Some zd ->
    write_files fs d dir o p z = Returned r p' z' ->
    zCRC32 z' = zCRC32 z \/ zCRC32 z' = memo (zCRC32 z).
Proof.
  induction fs as [|f fs IH]; intros d dir o p p' z z' r Hzd Hrun.
  - cbn in Hrun. injection Hrun as _ _ <-. now left.
  - cbn [write_files] in Hrun. unfold bind at 1 in Hrun.
    rewrite (_header_run zd) in Hrun by exact Hzd.
    unfold bind at 1 in Hrun.
    rewrite (_directory_run zd) in Hrun by exact Hzd.
    apply IH in Hrun; [|exact Hzd].
    right. destruct Hrun as [H|H]; exact H.
Qed.

Lemma archive_of_memo (zd : ZipDate) (c : CRC32.t) (fs : list FileData) :
  archive_of zd (memo c) fs = archive_of zd c fs.
Proof.
  unfold archive_of, directory_of.
  now rewrite local_blocks_memo, recorded_offsets_memo,
    central_directory_memo.
Qed.

Lemma write_archive_engine (p : Platform) (z : Zipper) :
  exists z' : Zipper,
    write_archive p z
    = Returned (archive_of (zipDate_of p) (zCRC32 z) (files z)) p z'
    /\ files z' = files z
    /\ (zCRC32 z' = zCRC32 z \/ zCRC32 z' = memo (zCRC32 z)).
Proof.
  unfold write_archive.
  unfold bind at 1, host. unfold bind at 1, this. unfold bind at 1, assign.
  unfold bind at 1.
  set (z1 := {| zCRC32 := zCRC32 z; files := files z; date := Some (now p);
                _zipDate := Some {| zd_date := _getZipDate (now p);
                                    zd_time := _getZipTime (now p) |} |}).
  unfold bind at 1.
  destruct (write_files_run (zipDate_of p) (files z1) [] [] 0 p z1 eq_refl)
    as (offset' & z' & Hrun & Hf & Hd & Hz).
  assert (He : zCRC32 z' = zCRC32 z1 \/ zCRC32 z' = memo (zCRC32 z1)).
  { apply (write_files_engine (zipDate_of p) (files z1) [] [] 0 p p z1 z' _
             eq_refl Hrun). }
  rewrite Hrun. unfold bind, ret. exists z'. rewrite Hf.
  split; [|split; [reflexivity|exact He]].
  unfold archive_of, directory_of. cbn [z1 files zCRC32 app].
  rewrite <- app_assoc. reflexivity.
Qed.

(** X26 -- serializing twice in a row on the same clock gives the same
    archive: neither the table cache of the engine nor the stored
    timestamp changes the bytes, and the files stay in place. *)
Theorem write_archive_again (p : Platform) (z : Zipper) :
  exists (archive : jsstring) (z1 z2 : Zipper),
    write_archive p z = Returned archive p z1
    /\ write_archive p z1 = Returned archive p z2
    /\ files z1 = files z /\ files z2 = files z.
Proof.
  destruct (write_archive_engine p z) as (z1 & Hrun1 & Hf1 & He1).
  destruct (write_archive_engine p z1) as (z2 & Hrun2 & Hf2 & _).
  exists (archive_of (zipDate_of p) (zCRC32 z) (files z)), z1, z2.
  split; [exact Hrun1|]. split; [|split; congruence].
  rewrite Hrun2, Hf1.
  destruct He1 as [-> | ->]; [reflexivity|].
  now rewrite archive_of_memo.
Qed.

(** X27 -- [add] followed by serialization: the local blocks of the files
    that were already there come first, unchanged, and right after them
    stands the block of the added file, whose data is the content of the
    attachment, one character per byte. *)
Theorem add_then_write_archive (p : Platform) (z : Zipper) (id : jsstring)
    (gr : Attachment) (file_name : jsstring) :
  sys_attachment p id = Some gr ->
  att_file_name gr = Some file_name ->
  exists (f : FileData) (archive : jsstring) (z' : Zipper),
    (add id ;;; write_archive) p z = Returned archive p z'
    /\ files z' = files z ++ [f]
    /\ data f = _binToString (att_bytes gr)
    /\ firstn (length (concat (map (local_block (zipDate_of p) (zCRC32 z))
                                   (files z))))
              archive
       = concat (map (local_block (zipDate_of p) (zCRC32 z)) (files z))
    /\ slice (length (concat (map (local_block (zipDate_of p) (zCRC32 z))
                                  (files z))))
             (length (local_header (zipDate_of p) (zCRC32 z) f ++ data f))
             archive
       = local_header (zipDate_of p) (zCRC32 z) f ++ data f.
Proof.
  intros Hget Hname.
  set (f := {| sys_id := att_sys_id gr;
               name := substring file_name 0 (MAX_FILENAME_LENGTH - 1);
               data := _binToString (att_bytes gr) |}).
  set (z1 := {| zCRC32 := zCRC32 z; files := files z ++ [f];
                date := date z; _zipDate := _zipDate z |}).
  destruct (write_archive_run p z1) as (z' & Hrun & Hf & _).
  exists f, (archive_of (zipDate_of p) (zCRC32 z) (files z ++ [f])), z'.
  split.
  { unfold bind at 1. unfold add, bind, host. rewrite Hget, Hname.
    unfold this, assign. fold f. fold z1. exact Hrun. }
  split; [exact Hf|]. split; [reflexivity|].
  unfold archive_of. rewrite map_app, concat_app. cbn [map concat].
  rewrite app_nil_r, <- !app_assoc. split.
  - rewrite firstn_app, firstn_all, Nat.sub_diag. cbn [firstn].
    apply app_nil_r.
  - apply (slice_app_mid _ (local_block (zipDate_of p) (zCRC32 z) f)).
Qed.

(** ** The table-driven checksum and the bit-by-bit one *)

Lemma ToInt32_mod32 (x : Z) : ToInt32 x mod 2 ^ 32 = x mod 2 ^ 32.
Proof. rewrite ToInt32_eq. apply Z_mod_plus_full. Qed.

Lemma mod32_mod256 (x : Z) : (x mod 2 ^ 32) mod 256 = x mod 256.
Proof.
  rewrite (Z.mod_eq x (2 ^ 32)) by lia.
  replace (x - 2 ^ 32 * (x / 2 ^ 32))
    with (x + (- (2 ^ 24 * (x / 2 ^ 32))) * 256) by lia.
  apply Z_mod_plus_full.
Qed.

Lemma bitxor_mod32 (a b : Z) :
  bitxor a b mod 2 ^ 32 = Z.lxor (a mod 2 ^ 32) (b mod 2 ^ 32).
Proof.
  unfold bitxor. rewrite lxor_mod_pow2 by lia. now rewrite !ToInt32_mod32.
Qed.

Lemma shr_shiftr (c k : Z) :
  0 <= k < 32 -> shr c k = Z.shiftr (c mod 2 ^ 32) k.
Proof.
  intros Hk. unfold shr, ToUint32. f_equal.
  rewrite (Z.mod_small k) by lia.
  change 31 with (Z.ones 5). rewrite Z.land_ones by lia.
  apply Z.mod_small. lia.
Qed.

Lemma shiftr_mod32_range (x k : Z) :
  0 <= k -> 0 <= Z.shiftr (x mod 2 ^ 32) k < 2 ^ 32.
Proof.
  intros Hk. rewrite Z.shiftr_div_pow2 by lia.
  pose proof (Z.mod_pos_bound x (2 ^ 32) ltac:(lia)) as Hx.
  assert (0 < 2 ^ k) by (apply Z.pow_pos_nonneg; lia).
  split; [apply Z.div_pos; lia|].
  apply Z.div_lt_upper_bound; nia.
Qed.

Lemma bitand_1_odd (c : Z) :
  (bitand c 1 =? 0) = negb (Z.odd (c mod 2 ^ 32)).
Proof.
  unfold bitand. change (ToInt32 1) with (Z.ones 1).
  rewrite Z.land_ones by lia. change (2 ^ 1) with 2.
  assert (H : ToInt32 c mod 2 = (c mod 2 ^ 32) mod 2).
  { rewrite ToInt32_eq, (Z.mod_eq c (2 ^ 32)) by lia.
    replace (c + - ((c + 2 ^ 31) / 2 ^ 32) * 2 ^ 32)
      with (c + (- ((c + 2 ^ 31) / 2 ^ 32) * 2 ^ 31) * 2) by lia.
    replace (c - 2 ^ 32 * (c / 2 ^ 32))
      with (c + (- (2 ^ 31 * (c / 2 ^ 32))) * 2) by lia.
    now rewrite !Z_mod_plus_full. }
  rewrite H, Zmod_odd.
  destruct (Z.odd (c mod 2 ^ 32)); reflexivity.
Qed.

Lemma table_step_mod32 (P c : Z) :
  CRC32.table_step P c mod 2 ^ 32
  = bit_round (P mod 2 ^ 32) (c mod 2 ^ 32).
Proof.
  unfold CRC32.table_step, bit_round. rewrite bitand_1_odd.
  destruct (Z.odd (c mod 2 ^ 32)); cbn [negb].
  - rewrite bitxor_mod32, shr_shiftr by lia.
    rewrite (Z.mod_small (Z.shiftr _ _)) by (apply shiftr_mod32_range; lia).
    apply Z.lxor_comm.
  - rewrite shr_shiftr by lia.
    rewrite Z.mod_small by (apply shiftr_mod32_range; lia).
    now rewrite Z.lxor_0_r.
Qed.

Lemma iter_table_step_mod32 (P c : Z) (k : nat) :
  Nat.iter k (CRC32.table_step P) c mod 2 ^ 32
  = Nat.iter k (bit_round (P mod 2 ^ 32)) (c mod 2 ^ 32).
Proof.
  induction k as [|k IH]; [reflexivity|].
  cbn [Nat.iter nat_rect]. unfold Nat.iter in IH.
  now rewrite table_step_mod32, IH.
Qed.

Lemma odd_lxor (x y : Z) : Z.odd (Z.lxor x y) = xorb (Z.odd x) (Z.odd y).
Proof. now rewrite <- !Z.bit0_odd, Z.lxor_spec. Qed.

Lemma bit_round_lxor (P x y : Z) :
  bit_round P (Z.lxor x y) = Z.lxor (bit_round P x) (bit_round P y).
Proof.
  unfold bit_round. rewrite odd_lxor, Z.shiftr_lxor.
  apply Z.bits_inj'. intros i _. rewrite !Z.lxor_spec.
  destruct (Z.odd x), (Z.odd y); cbn [xorb];
    rewrite ?Z.bits_0;
    destruct (Z.testbit (Z.shiftr x 1) i), (Z.testbit (Z.shiftr y 1) i),
      (Z.testbit P i); reflexivity.
Qed.

Lemma iter_bit_round_lxor (P x y : Z) (k : nat) :
  Nat.iter k (bit_round P) (Z.lxor x y)
  = Z.lxor (Nat.iter k (bit_round P) x) (Nat.iter k (bit_round P) y).
Proof.
  induction k as [|k IH]; [reflexivity|].
  cbn [Nat.iter nat_rect]. unfold Nat.iter in IH.
  now rewrite IH, bit_round_lxor.
Qed.

Lemma iter_bit_round_shifted (P : Z) (k : nat) :
  forall h : Z, Nat.iter k (bit_round P) (h * 2 ^ Z.of_nat k) = h.
Proof.
  induction k as [|k IH]; intros h.
  - cbn. lia.
  - cbn [Nat.iter nat_rect]. unfold Nat.iter in IH.
    rewrite Nat2Z.inj_succ, Z.pow_succ_r by lia.
    replace (h * (2 * 2 ^ Z.of_nat k)) with (2 * h * 2 ^ Z.of_nat k) by lia.
    rewrite IH. unfold bit_round.
    rewrite Z.odd_mul, Z.shiftr_div_pow2 by lia. cbn [Z.odd andb].
    rewrite Z.lxor_0_r. change (2 ^ 1) with 2.
    rewrite Z.mul_comm. apply Z.div_mul. lia.
Qed.

Lemma split_low_byte (x : Z) :
  x = Z.lxor (Z.shiftr x 8 * 2 ^ 8) (x mod 2 ^ 8).
Proof.
  rewrite <- Z.add_nocarry_lxor.
  - rewrite Z.shiftr_div_pow2 by lia.
    rewrite (Z.div_mod x (2 ^ 8)) at 1 by lia. lia.
  - apply land_shifted_small; [lia|]. apply Z.mod_pos_bound. lia.
Qed.

Lemma table_at_built (self : CRC32.t) (i : Z) :
  0 <= i < 256 ->
  CRC32.table_at (CRC32._buildCRCTable self) i
  = Nat.iter 8 (CRC32.table_step (CRC32.MAGIC_NUMBER self)) i.
Proof.
  intros Hi. unfold CRC32.table_at, CRC32._buildCRCTable.
  set (f := fun n : nat =>
              Nat.iter 8 (CRC32.table_step (CRC32.MAGIC_NUMBER self))
                       (Z.of_nat n)).
  assert (Hlt : (Z.to_nat i < 32 * 8)%nat) by lia.
  rewrite (nth_indep _ 0 (f 0%nat)) by (now rewrite length_map, length_seq).
  rewrite map_nth, seq_nth by exact Hlt.
  unfold f. cbn [Nat.add]. now rewrite Z2Nat.id by lia.
Qed.

(** Both updates of the checksum, read as unsigned numbers, are eight
    bit rounds on the checksum combined with the low byte. *)
Lemma bitwise_update_mod32 (P crc b : Z) :
  Nat.iter 8 (CRC32.table_step P) (bitxor crc (bitand b 0xFF)) mod 2 ^ 32
  = Nat.iter 8 (bit_round (P mod 2 ^ 32))
             (Z.lxor (crc mod 2 ^ 32) (b mod 256)).
Proof.
  rewrite iter_table_step_mod32, bitxor_mod32, bitand_255.
  pose proof (Z.mod_pos_bound b 256 ltac:(lia)).
  now rewrite (Z.mod_small (b mod 256)) by lia.
Qed.

Lemma table_update_mod32 (self : CRC32.t) (crc b : Z) :
  CRC32.crc_step (CRC32._buildCRCTable self) crc b mod 2 ^ 32
  = Nat.iter 8 (bit_round (CRC32.MAGIC_NUMBER self mod 2 ^ 32))
             (Z.lxor (crc mod 2 ^ 32) (b mod 256)).
Proof.
  unfold CRC32.crc_step.
  set (X := Z.lxor (crc mod 2 ^ 32) (b mod 256)).
  pose proof (Z.mod_pos_bound b 256 ltac:(lia)) as Hb.
  assert (Hidx : bitand (bitxor crc b) 0xFF = X mod 2 ^ 8).
  { rewrite bitand_255. unfold bitxor, X. change 256 with (2 ^ 8).
    rewrite !lxor_mod_pow2 by lia. change (2 ^ 8) with 256.
    now rewrite !ToInt32_mod256, mod32_mod256, Z.mod_mod by lia. }
  assert (Hhi : Z.shiftr (crc mod 2 ^ 32) 8 = Z.shiftr X 8).
  { unfold X. rewrite Z.shiftr_lxor.
    rewrite (Z.shiftr_div_pow2 (b mod 256)) by lia.
    change (2 ^ 8) with 256. rewrite (Z.div_small (b mod 256)) by lia.
    now rewrite Z.lxor_0_r. }
  rewrite Hidx, table_at_built by (apply Z.mod_pos_bound; lia).
  rewrite bitxor_mod32, iter_table_step_mod32, shr_shiftr by lia.
  rewrite (Z.mod_small (Z.shiftr _ _)) by (apply shiftr_mod32_range; lia).
  rewrite Hhi.
  assert (Hlo : (X mod 2 ^ 8) mod 2 ^ 32 = X mod 2 ^ 8).
  { apply Z.mod_small.
    pose proof (Z.mod_pos_bound X (2 ^ 8) ltac:(lia)). lia. }
  rewrite Hlo.
  rewrite (split_low_byte X) at 3.
  rewrite iter_bit_round_lxor.
  now rewrite (iter_bit_round_shifted _ 8 (Z.shiftr X 8)).
Qed.

(** X28 -- one step of [evaluate] with the table [_buildCRCTable] builds
    gives, as a 32-bit pattern, what eight rounds of the table builder's
    inner loop give on the checksum combined with the low byte of the
    input: the table is a correct shortcut for the bit-by-bit division. *)
Theorem table_step_agrees (self : CRC32.t) (crc b : Z) :
  ToUint32 (CRC32.crc_step (CRC32._buildCRCTable self) crc b)
  = ToUint32 (Nat.iter 8 (CRC32.table_step (CRC32.MAGIC_NUMBER self))
                       (bitxor crc (bitand b 0xFF))).
Proof.
  unfold ToUint32. now rewrite table_update_mod32, bitwise_update_mod32.
Qed.

Lemma fold_left_cons {A B : Type} (f : A -> B -> A) (x : B) (l : list B)
    (a : A) :
  fold_left f (x :: l) a = fold_left f l (f a x).
Proof. reflexivity. Qed.

Lemma fold_updates_mod32 (self : CRC32.t) (bytes : list Z) :
  forall a b : Z,
    a mod 2 ^ 32 = b mod 2 ^ 32 ->
    fold_left (CRC32.crc_step (CRC32._buildCRCTable self)) bytes a mod 2 ^ 32
    = fold_left
        (fun crc x =>
           Nat.iter 8 (CRC32.table_step (CRC32.MAGIC_NUMBER self))
                    (bitxor crc (bitand x 0xFF)))
        bytes b mod 2 ^ 32.
Proof.
  induction bytes as [|x bytes IH]; intros a b Hab.
  - exact Hab.
  - rewrite !fold_left_cons. apply IH.
    rewrite (table_update_mod32 self a x).
    rewrite (bitwise_update_mod32 (CRC32.MAGIC_NUMBER self) b x).
    rewrite Hab. reflexivity.
Qed.

(** X29 -- on a fresh engine, and on the engine any evaluation leaves
    behind, [evaluate] of a byte array is the bit-by-bit checksum: the
    same start value and final complement, with each table lookup
    replaced by eight rounds of the table builder's inner loop. *)
Theorem evaluate_bitwise (self : CRC32.t) (a : CRC32.arg) (bytes : list Z) :
  CRC32._crc_table self = None ->
  fst (CRC32.evaluate self (CRC32.OfBytes bytes))
  = crc_bitwise (CRC32.MAGIC_NUMBER self) bytes
  /\ fst (CRC32.evaluate (snd (CRC32.evaluate self a)) (CRC32.OfBytes bytes))
     = crc_bitwise (CRC32.MAGIC_NUMBER self) bytes.
Proof.
  intros Hfresh.
  assert (H : fst (CRC32.evaluate self (CRC32.OfBytes bytes))
              = crc_bitwise (CRC32.MAGIC_NUMBER self) bytes).
  { unfold CRC32.evaluate, crc_bitwise. rewrite Hfresh. unfold fst.
    rewrite !shr_shiftr, !bitxor_mod32 by lia.
    now rewrite (fold_updates_mod32 self bytes _ (bitxor 0 (-1)) eq_refl). }
  split; [exact H|].
  rewrite <- H. unfold CRC32.evaluate. rewrite Hfresh. reflexivity.
Qed.

(** ** Fields read in what the methods return *)

Lemma slice_app_inner (a b c : jsstring) (k n : nat) :
  (k + n <= length b)%nat ->
  slice (length a + k) n (a ++ b ++ c) = slice k n b.
Proof.
  intros Hk. unfold slice.
  rewrite skipn_app, skipn_all2 by lia. cbn [app].
  replace (length a + k - length a)%nat with k by lia.
  rewrite skipn_app, firstn_app.
  replace (n - length (skipn k b))%nat with 0%nat
    by (rewrite length_skipn; lia).
  cbn [firstn]. apply app_nil_r.
Qed.

Lemma blocks_length_eq (zd : ZipDate) (c : CRC32.t) (fs : list FileData) :
  length (concat (map (local_block zd c) fs)) = Z.to_nat (blocks_length fs).
Proof.
  rewrite <- (Nat2Z.id (length _)). f_equal.
  apply (local_blocks_length zd c fs).
Qed.

Lemma central_directory_split (zd : ZipDate) (c : CRC32.t)
    (fs : list FileData) :
  forall (i : nat) (f : FileData) (d : jsstring) (o : Z),
    nth_error fs i = Some f ->
    exists pre post : jsstring,
      central_directory zd c fs (recorded_offsets zd c fs d o)
      = pre
        ++ central_record zd c f (nth i (recorded_offsets zd c fs d o) 0)
        ++ post
      /\ length pre = Z.to_nat (record_position fs i).
Proof.
  induction fs as [|g fs IH]; intros [|i] f d o H; try discriminate.
  - injection H as ->. exists [], (central_directory zd c fs
      (recorded_offsets zd c fs (d ++ local_block zd c f)
         (o + len (d ++ local_block zd c f)))).
    split; reflexivity.
  - cbn [nth_error] in H.
    destruct (IH i f (d ++ local_block zd c g)
                (o + len (d ++ local_block zd c g)) H)
      as (pre & post & Heq & Hlen).
    exists (central_record zd c g o ++ pre), post.
    cbn [recorded_offsets central_directory nth]. rewrite Heq.
    split; [now rewrite <- app_assoc|].
    rewrite length_app, central_record_length, Hlen.
    unfold record_position. cbn [firstn fold_right].
    fold (record_position fs i).
    assert (0 <= record_position fs i).
    { unfold record_position. clear.
      induction (firstn i fs) as [|h l IHl]; cbn [fold_right]; unfold len in *;
        lia. }
    unfold len. lia.
Qed.

(** The record the central directory holds for entry [i], where it stands
    in the archive. *)
Lemma archive_record_at (zd : ZipDate) (c : CRC32.t) (fs : list FileData)
    (i : nat) (f : FileData) :
  nth_error fs i = Some f ->
  slice (Z.to_nat (blocks_length fs + record_position fs i))
        (46 + length (name f)) (archive_of zd c fs)
  = central_record zd c f (nth i (recorded_offsets zd c fs [] 0) 0).
Proof.
  intros Hi. unfold archive_of, directory_of.
  destruct (central_directory_split zd c fs i f [] 0 Hi)
    as (pre & post & Heq & Hlen).
  rewrite Heq.
  assert (Hb : 0 <= blocks_length fs).
  { unfold blocks_length. rewrite <- (local_blocks_length zd c fs).
    unfold len. lia. }
  assert (Hr : 0 <= record_position fs i).
  { unfold record_position. clear.
    induction (firstn i fs) as [|h l IHl]; cbn [fold_right]; unfold len in *;
      lia. }
  rewrite Z2Nat.inj_add by assumption.
  rewrite <- (blocks_length_eq zd c fs), <- Hlen, <- length_app.
  rewrite <- (central_record_length zd c f
                (nth i (recorded_offsets zd c fs [] 0) 0)).
  rewrite <- !app_assoc.
  rewrite (app_assoc (concat (map (local_block zd c) fs)) pre).
  apply slice_app_mid.
Qed.

(** X20 -- the loop body of [write] builds, for one file, a local header
    of 30 bytes plus the name and a central directory record of 46 bytes
    plus the name; the record repeats the 26 bytes that follow the
    signature in the header (version needed, flags, method, time, date,
    checksum, both sizes, name length, extra length), and both end with
    the file's name. *)
Theorem central_record_mirrors_header (f : FileData) (o : Z) (p : Platform)
    (z : Zipper) (zd : ZipDate) :
  _zipDate z = Some zd ->
  exists (h r : jsstring) (z' : Zipper),
    (x <- _header f ;; y <- _directory f o ;; ret (x, y)) p z
    = Returned (h, r) p z'
    /\ length h = (30 + length (name f))%nat
    /\ length r = (46 + length (name f))%nat
    /\ slice 6 26 r = slice 4 26 h
    /\ skipn 30 h = name f
    /\ skipn 46 r = name f.
Proof.
  intros Hzd.
  exists (local_header zd (zCRC32 z) f), (central_record zd (zCRC32 z) f o),
    (with_engine z (memo (zCRC32 z))).
  split.
  { unfold bind at 1. rewrite (_header_run zd) by exact Hzd.
    unfold bind at 1. rewrite (_directory_run zd) by exact Hzd.
    reflexivity. }
  split; [apply local_header_length|].
  split; [apply central_record_length|].
  repeat split; reflexivity.
Qed.

(** X21 -- the checksum field of the local header [_header] returns
    (bytes 14..17) and of the central directory record [_directory]
    returns (bytes 16..19) spells the checksum [evaluate] gives for the
    file's data. *)
Theorem checksum_fields (f : FileData) (o : Z) (p : Platform) (z : Zipper)
    (zd : ZipDate) :
  _zipDate z = Some zd ->
  exists (h r : jsstring) (z1 z2 : Zipper),
    _header f p z = Returned h p z1
    /\ _directory f o p z1 = Returned r p z2
    /\ le_value (slice 14 4 h)
       = fst (CRC32.evaluate (zCRC32 z) (CRC32.OfString (data f)))
    /\ le_value (slice 16 4 r)
       = fst (CRC32.evaluate (zCRC32 z) (CRC32.OfString (data f))).
Proof.
  intros Hzd.
  exists (local_header zd (zCRC32 z) f), (central_record zd (zCRC32 z) f o),
    (with_engine z (memo (zCRC32 z))), (with_engine z (memo (zCRC32 z))).
  split; [apply (_header_run zd); exact Hzd|].
  split; [rewrite (_directory_run zd) by exact Hzd; reflexivity|].
  assert (H : le_value (_intToBytes (JSNum (crc_of (zCRC32 z) (data f))) 4)
              = crc_of (zCRC32 z) (data f)).
  { rewrite le_value_intToBytes_4. apply Z.mod_small.
    apply checksum_range. }
  split; exact H.
Qed.

(** X30 -- no size is checked: [_header] and [_directory] return for every
    file once the timestamp is set, and both size fields of the local
    header (bytes 18..25) and of the central directory record (bytes
    20..27) spell the data length modulo 2^32, which is the length itself
    whenever it is below 2^32. *)
Theorem size_fields_spell_length (f : FileData) (o : Z) (p : Platform)
    (z : Zipper) (zd : ZipDate) :
  _zipDate z = Some zd ->
  exists (h r : jsstring) (z1 z2 : Zipper),
    _header f p z = Returned h p z1
    /\ _directory f o p z1 = Returned r p z2
    /\ le_value (slice 18 4 h) = len (data f) mod 2 ^ 32
    /\ le_value (slice 22 4 h) = len (data f) mod 2 ^ 32
    /\ le_value (slice 20 4 r) = len (data f) mod 2 ^ 32
    /\ le_value (slice 24 4 r) = len (data f) mod 2 ^ 32
    /\ (len (data f) < 2 ^ 32 ->
        le_value (slice 18 4 h) = len (data f)
        /\ le_value (slice 22 4 h) = len (data f)
        /\ le_value (slice 20 4 r) = len (data f)
        /\ le_value (slice 24 4 r) = len (data f)).
Proof.
  intros Hzd.
  exists (local_header zd (zCRC32 z) f), (central_record zd (zCRC32 z) f o),
    (with_engine z (memo (zCRC32 z))), (with_engine z (memo (zCRC32 z))).
  split; [apply (_header_run zd); exact Hzd|].
  split; [rewrite (_directory_run zd) by exact Hzd; reflexivity|].
  pose proof (le_value_intToBytes_4 (len (data f))) as H.
  repeat (split; [exact H|]).
  intros Hlt. rewrite Z.mod_small in H by (unfold len in *; lia).
  repeat split; exact H.
Qed.

(** X24 -- in the archive [write] assembles, the central directory record
    of entry [i] stands after the local blocks and the records of the
    entries before it; it starts with the record signature, ends with the
    entry's name, and its offset field (bytes 42..45) spells, modulo 2^32,
    the sum of the positions of the local headers of entries 1 to [i]: the
    cursor of [write] adds up the lengths of everything emitted after each
    file. *)
Theorem recorded_offset_formula (p : Platform) (z : Zipper) :
  exists (archive : jsstring) (z' : Zipper),
    write_archive p z = Returned archive p z'
    /\ forall (i : nat) (f : FileData),
         nth_error (files z) i = Some f ->
         exists r : jsstring,
           r = slice (Z.to_nat (blocks_length (files z)
                                + record_position (files z) i))
                     (46 + length (name f)) archive
           /\ slice 0 4 r = [0x50; 0x4B; 0x01; 0x02]
           /\ skipn 46 r = name f
           /\ le_value (slice 42 4 r)
              = fold_right Z.add 0
                  (map (header_position (zipDate_of p) (zCRC32 z) (files z))
                       (seq 1 i))
                mod 2 ^ 32.
Proof.
  destruct (write_archive_run p z) as (z' & Hrun & _).
  exists (archive_of (zipDate_of p) (zCRC32 z) (files z)), z'.
  split; [exact Hrun|]. intros i f Hi.
  eexists. split; [reflexivity|].
  rewrite (archive_record_at _ _ _ _ _ Hi).
  split; [reflexivity|]. split; [reflexivity|].
  assert (Hlt : (i < length (files z))%nat).
  { apply nth_error_Some. rewrite Hi. discriminate. }
  destruct (central_record_fields (zipDate_of p) (zCRC32 z) f
              (nth i (recorded_offsets (zipDate_of p) (zCRC32 z) (files z)
                        [] 0) 0))
    as (_ & _ & _ & _ & _ & H).
  rewrite H, le_value_intToBytes_4, recorded_offsets_sum by exact Hlt.
  cbn [len length Z.of_nat]. rewrite Z.add_0_l. reflexivity.
Qed.

(** X25 -- in the archive [write] assembles, for the first two entries
    (index 0 and 1) the local header stands at the position that the
    offset field of the entry's central directory record spells (modulo
    2^32). *)
Theorem first_two_offsets (p : Platform) (z : Zipper) :
  exists (archive : jsstring) (z' : Zipper),
    write_archive p z = Returned archive p z'
    /\ forall (i : nat) (f : FileData),
         nth_error (files z) i = Some f ->
         (i <= 1)%nat ->
         slice (Z.to_nat (header_position (zipDate_of p) (zCRC32 z)
                                          (files z) i))
               4 archive
         = [0x50; 0x4b; 0x03; 0x04]
         /\ le_value
              (slice 42 4
                 (slice (Z.to_nat (blocks_length (files z)
                                   + record_position (files z) i))
                        (46 + length (name f)) archive))
            = header_position (zipDate_of p) (zCRC32 z) (files z) i
              mod 2 ^ 32.
Proof.
  destruct (write_archive_run p z) as (z' & Hrun & _).
  exists (archive_of (zipDate_of p) (zCRC32 z) (files z)), z'.
  split; [exact Hrun|]. intros i f Hi Hle.
  split.
  - unfold archive_of, header_position, len. rewrite Nat2Z.id.
    rewrite (nth_error_split_blocks _ _ _ _ _ Hi), <- !app_assoc.
    rewrite <- (Nat.add_0_r (length (concat _))).
    rewrite slice_app_inner
      by (unfold local_block; rewrite length_app, local_header_length; lia).
    reflexivity.
  - rewrite (archive_record_at _ _ _ _ _ Hi).
    assert (Hlt : (i < length (files z))%nat).
    { apply nth_error_Some. rewrite Hi. discriminate. }
    destruct (central_record_fields (zipDate_of p) (zCRC32 z) f
                (nth i (recorded_offsets (zipDate_of p) (zCRC32 z) (files z)
                          [] 0) 0))
      as (_ & _ & _ & _ & _ & H).
    rewrite H, le_value_intToBytes_4, recorded_offsets_sum by exact Hlt.
    f_equal.
    destruct i as [|[|i]]; [reflexivity| |lia].
    cbn [seq map fold_right len length Z.of_nat]. lia.
Qed.

Lemma slice_slice (s : jsstring) (start n k m : nat) :
  (k + m <= n)%nat ->
  slice k m (slice start n s) = slice (start + k) m s.
Proof.
  intros H. unfold slice.
  rewrite skipn_firstn_comm, firstn_firstn, skipn_skipn.
  rewrite Nat.min_l by lia. now rewrite (Nat.add_comm k start).
Qed.

(** C7 -- [add] stores the first 255 characters of the attachment's name.
    For the stored entry, [_header] and [_directory] return records that
    end with the stored name and whose name-length field spells the length
    of the stored name; so do the local header and the central directory
    record of the entry in the archive [write] assembles after the
    [add]. *)
Theorem add_truncates_name (p : Platform) (z : Zipper) (id : jsstring)
    (gr : Attachment) (file_name : jsstring) :
  sys_attachment p id = Some gr ->
  att_file_name gr = Some file_name ->
  exists (f : FileData) (archive : jsstring) (z' : Zipper),
    add id p z
    = Returned tt p {| zCRC32 := zCRC32 z; files := files z ++ [f];
                       date := date z; _zipDate := _zipDate z |}
    /\ name f = firstn 255 file_name
    /\ len (name f) = Z.min (len file_name) 255
    /\ (forall (q : Platform) (z1 : Zipper) (zd : ZipDate) (o : Z),
          _zipDate z1 = Some zd ->
          exists (h r : jsstring) (z2 z3 : Zipper),
            _header f q z1 = Returned h q z2
            /\ _directory f o q z2 = Returned r q z3
            /\ le_value (slice 26 2 h) = len (name f)
            /\ skipn 30 h = name f
            /\ le_value (slice 28 2 r) = len (name f)
            /\ skipn 46 r = name f)
    /\ (add id ;;; write_archive) p z = Returned archive p z'
    /\ le_value (slice (Z.to_nat (blocks_length (files z)) + 26) 2 archive)
       = len (name f)
    /\ le_value
         (slice (Z.to_nat (blocks_length (files z ++ [f])
                           + record_position (files z ++ [f])
                                             (length (files z)))
                 + 28)
                2 archive)
       = len (name f).
Proof.
  intros Hget Hname.
  set (f := {| sys_id := att_sys_id gr; name := firstn 255 file_name;
               data := _binToString (att_bytes gr) |}).
  set (z1 := {| zCRC32 := zCRC32 z; files := files z ++ [f];
                date := date z; _zipDate := _zipDate z |}).
  assert (Hadd : add id p z = Returned tt p z1).
  { unfold add, bind, host. rewrite Hget, Hname. unfold this, assign.
    unfold MAX_FILENAME_LENGTH. rewrite substring_prefix by lia.
    reflexivity. }
  assert (Hlen : len (name f) = Z.min (len file_name) 255).
  { cbn [f name]. unfold len. rewrite length_firstn. lia. }
  assert (Hsmall : len (name f) mod 2 ^ 16 = len (name f)).
  { apply Z.mod_small. rewrite Hlen. unfold len. lia. }
  assert (Hh : forall zd c,
             le_value (slice 26 2 (local_header zd c f)) = len (name f)).
  { intros zd c.
    destruct (local_header_fields zd c f) as (_ & _ & _ & _ & H).
    rewrite H, le_value_intToBytes_2. exact Hsmall. }
  assert (Hr : forall zd c o,
             le_value (slice 28 2 (central_record zd c f o)) = len (name f)).
  { intros zd c o.
    destruct (central_record_fields zd c f o) as (_ & _ & _ & _ & H & _).
    rewrite H, le_value_intToBytes_2. exact Hsmall. }
  destruct (write_archive_run p z1) as (z' & Hrun & _).
  exists f, (archive_of (zipDate_of p) (zCRC32 z) (files z ++ [f])), z'.
  split; [exact Hadd|]. split; [reflexivity|]. split; [exact Hlen|].
  split; [|split; [|split]].
  - intros q z2 zd o Hzd.
    exists (local_header zd (zCRC32 z2) f),
      (central_record zd (zCRC32 z2) f o),
      (with_engine z2 (memo (zCRC32 z2))),
      (with_engine z2 (memo (zCRC32 z2))).
    split; [apply (_header_run zd); exact Hzd|].
    split; [rewrite (_directory_run zd) by exact Hzd; reflexivity|].
    split; [apply Hh|]. split; [reflexivity|].
    split; [apply Hr|reflexivity].
  - unfold bind at 1. rewrite Hadd. exact Hrun.
  - rewrite <- (blocks_length_eq (zipDate_of p) (zCRC32 z) (files z)).
    unfold archive_of. rewrite map_app, concat_app. cbn [map concat].
    rewrite app_nil_r, <- !app_assoc. unfold local_block at 3.
    rewrite <- app_assoc.
    rewrite slice_app_inner by (rewrite local_header_length; lia).
    apply Hh.
  - assert (Hi : nth_error (files z ++ [f]) (length (files z)) = Some f).
    { rewrite nth_error_app2, Nat.sub_diag by lia. reflexivity. }
    rewrite <- (slice_slice _ _ (46 + length (name f))) by lia.
    rewrite (archive_record_at _ _ _ _ _ Hi). apply Hr.
Qed.

End ZipperClass.

(** ** The theorems at sample inputs *)

Lemma write_archive_no_entries_witness :
  files initialize = []
  /\ exists z' : Zipper,
       write_archive no_literal sample_platform initialize
       = Returned [0x50; 0x4B; 0x05; 0x06; 0; 0; 0; 0; 0; 0; 0; 0;
                   0; 0; 0; 0; 0; 0; 0; 0; 0; 0] sample_platform z'.
Proof.
  split; [reflexivity|].
  apply (write_archive_no_entries no_literal sample_platform initialize).
  reflexivity.
Defined.

Lemma write_unsupported_witness :
  let table := Some [0x74] in
  let record := Some [0x31] in
  let filename := Some [0x61] in
  nil table = false
  /\ tableExists sample_platform (str table) = true
  /\ nil record = false
  /\ isEligibleSysID sample_platform (str record) = true
  /\ nil filename = false
  /\ record_get sample_platform (str table) (str record) = true
  /\ exists (p' : Platform) (z' : Zipper),
       write no_literal table record filename sample_platform
             (zipper_with [empty_file 0x61])
       = Thrown UnsupportedPlatform p' z'
       /\ p' = sample_platform
       /\ written p' = written sample_platform.
Proof.
  intros table record filename.
  repeat (split; [reflexivity|]).
  apply (write_unsupported no_literal sample_platform
           (zipper_with [empty_file 0x61]) table record filename);
    reflexivity.
Defined.

Lemma bytes_string_roundtrip_witness :
  Forall (fun b => 0 <= b <= 255) [0; 104; 255]
  /\ CRC32._strToByte (_binToString [0; 104; 255]) = [0; 104; 255].
Proof.
  assert (H : Forall (fun b => 0 <= b <= 255) [0; 104; 255]).
  { repeat constructor; discriminate. }
  split; [exact H|].
  apply (bytes_string_roundtrip [0; 104; 255] H).
Defined.

Lemma string_bytes_roundtrip_witness :
  Forall (fun c => 0 <= c <= 255) [0; 104; 255]
  /\ _binToString (CRC32._strToByte [0; 104; 255]) = [0; 104; 255].
Proof.
  assert (H : Forall (fun c => 0 <= c <= 255) [0; 104; 255]).
  { repeat constructor; discriminate. }
  split; [exact H|].
  apply (string_bytes_roundtrip [0; 104; 255] H).
Defined.

Lemma _intToBytes_roundtrip_witness :
  (4 <= 4)%nat
  /\ 0 <= 3633523372 < 256 ^ Z.of_nat 4
  /\ le_value (_intToBytes no_literal (JSNum 3633523372) 4) = 3633523372.
Proof.
  assert (H1 : (4 <= 4)%nat) by constructor.
  assert (H2 : 0 <= 3633523372 < 256 ^ Z.of_nat 4).
  { split; [discriminate|reflexivity]. }
  split; [exact H1|]. split; [exact H2|].
  apply (_intToBytes_roundtrip no_literal 3633523372 4 H1 H2).
Defined.

Lemma _getZipTime_packs_witness :
  let d := now sample_platform in
  0 <= getHours d <= 23
  /\ 0 <= getMinutes d <= 59
  /\ 0 <= getSeconds d <= 59
  /\ _getZipTime d = getHours d * 2048 + getMinutes d * 32 + getSeconds d / 2
  /\ 0 <= _getZipTime d < 2 ^ 16
  /\ le_value (_intToBytes no_literal (JSNum (_getZipTime d)) 2)
     = _getZipTime d.
Proof.
  intros d.
  assert (Hh : 0 <= getHours d <= 23) by (split; discriminate).
  assert (Hm : 0 <= getMinutes d <= 59) by (split; discriminate).
  assert (Hs : 0 <= getSeconds d <= 59) by (split; discriminate).
  split; [exact Hh|]. split; [exact Hm|]. split; [exact Hs|].
  apply (_getZipTime_packs no_literal d Hh Hm Hs).
Defined.

Lemma _getZipDate_packs_witness :
  let d := now sample_platform in
  1980 <= getFullYear d <= 2107
  /\ 0 <= getMonth d <= 11
  /\ 1 <= getDate d <= 31
  /\ _getZipDate d
     = (getFullYear d - 1980) * 512 + (getMonth d + 1) * 32 + getDate d
  /\ 0 <= _getZipDate d < 2 ^ 16
  /\ le_value (_intToBytes no_literal (JSNum (_getZipDate d)) 2)
     = _getZipDate d.
Proof.
  intros d.
  assert (Hy : 1980 <= getFullYear d <= 2107) by (split; discriminate).
  assert (Hm : 0 <= getMonth d <= 11) by (split; discriminate).
  assert (Hd : 1 <= getDate d <= 31) by (split; discriminate).
  split; [exact Hy|]. split; [exact Hm|]. split; [exact Hd|].
  apply (_getZipDate_packs no_literal d Hy Hm Hd).
Defined.

Lemma add_missing_record_witness :
  let p := platform_where None true true true in
  sys_attachment p [0x31] = None
  /\ add [0x31] p (zipper_with [empty_file 0x61])
     = Thrown NoAttachmentRecord p (zipper_with [empty_file 0x61]).
Proof.
  intros p. split; [reflexivity|].
  apply (add_missing_record p (zipper_with [empty_file 0x61]) [0x31]).
  reflexivity.
Defined.

Lemma add_stores_content_witness :
  sys_attachment sample_platform [0x31] = Some sample_attachment
  /\ att_file_name sample_attachment = Some (repeat 0x61 300)
  /\ exists (f : FileData) (z' : Zipper),
       add [0x31] sample_platform initialize = Returned tt sample_platform z'
       /\ files z' = files initialize ++ [f]
       /\ zCRC32 z' = zCRC32 initialize /\ date z' = date initialize
       /\ _zipDate z' = _zipDate initialize
       /\ sys_id f = att_sys_id sample_attachment
       /\ len (data f) = len (att_bytes sample_attachment)
       /\ CRC32._strToByte (data f)
          = map (fun b => b mod 256) (att_bytes sample_attachment)
       /\ (forall c : CRC32.t,
             crc_of c (data f)
             = fst (CRC32.evaluate c
                      (CRC32.OfBytes (att_bytes sample_attachment)))).
Proof.
  split; [reflexivity|]. split; [reflexivity|].
  apply (add_stores_content sample_platform initialize [0x31]
           sample_attachment (repeat 0x61 300)); reflexivity.
Defined.


Lemma write_invalid_table_witness :
  let p := platform_where None false true true in
  (nil (Some [0x74]) = true \/ tableExists p (str (Some [0x74])) = false)
  /\ write no_literal (Some [0x74]) None None p initialize
     = Thrown InvalidTable p initialize.
Proof.
  intros p.
  assert (H : nil (Some [0x74]) = true
              \/ tableExists p (str (Some [0x74])) = false)
    by (right; reflexivity).
  split; [exact H|].
  apply (write_invalid_table no_literal p initialize (Some [0x74]) None None H).
Defined.

Lemma write_invalid_record_witness :
  let p := platform_where None true true true in
  nil (Some [0x74]) = false
  /\ tableExists p (str (Some [0x74])) = true
  /\ (nil None = true \/ isEligibleSysID p (str None) = false)
  /\ write no_literal (Some [0x74]) None None p initialize
     = Thrown InvalidRecord p initialize.
Proof.
  intros p.
  assert (H : nil None = true \/ isEligibleSysID p (str None) = false)
    by (left; reflexivity).
  split; [reflexivity|]. split; [reflexivity|]. split; [exact H|].
  apply (write_invalid_record no_literal p initialize (Some [0x74]) None None
           eq_refl eq_refl H).
Defined.

Lemma write_invalid_filename_witness :
  let p := platform_where None true true true in
  nil (Some [0x74]) = false
  /\ tableExists p (str (Some [0x74])) = true
  /\ nil (Some [0x31]) = false
  /\ isEligibleSysID p (str (Some [0x31])) = true
  /\ nil (Some []) = true
  /\ write no_literal (Some [0x74]) (Some [0x31]) (Some []) p initialize
     = Thrown InvalidFilename p initialize.
Proof.
  intros p. repeat (split; [reflexivity|]).
  apply (write_invalid_filename no_literal p initialize (Some [0x74])
           (Some [0x31]) (Some [])); reflexivity.
Defined.

Lemma write_missing_target_witness :
  let p := platform_where None true true false in
  nil (Some [0x74]) = false
  /\ tableExists p (str (Some [0x74])) = true
  /\ nil (Some [0x31]) = false
  /\ isEligibleSysID p (str (Some [0x31])) = true
  /\ nil (Some [0x61]) = false
  /\ record_get p (str (Some [0x74])) (str (Some [0x31])) = false
  /\ exists z' : Zipper,
       write no_literal (Some [0x74]) (Some [0x31]) (Some [0x61]) p
             (zipper_with [empty_file 0x61])
       = Thrown (NoTargetRecord (str (Some [0x31])) (str (Some [0x74]))) p z'
       /\ files z' = files (zipper_with [empty_file 0x61])
       /\ date z' = Some (now p)
       /\ _zipDate z' = Some (zipDate_of p).
Proof.
  intros p. repeat (split; [reflexivity|]).
  apply (write_missing_target no_literal p (zipper_with [empty_file 0x61])
           (Some [0x74]) (Some [0x31]) (Some [0x61])); reflexivity.
Defined.

Lemma add_then_write_archive_witness :
  let p := sample_platform in
  let z := zipper_with [empty_file 0x61] in
  sys_attachment p [0x31] = Some sample_attachment
  /\ att_file_name sample_attachment = Some (repeat 0x61 300)
  /\ exists (f : FileData) (archive : jsstring) (z' : Zipper),
       (add [0x31] ;;; write_archive no_literal) p z = Returned archive p z'
       /\ files z' = files z ++ [f]
       /\ data f = _binToString (att_bytes sample_attachment)
       /\ firstn (length (concat (map (local_block no_literal (zipDate_of p)
                                                   (zCRC32 z)) (files z))))
                 archive
          = concat (map (local_block no_literal (zipDate_of p) (zCRC32 z))
                        (files z))
       /\ slice (length (concat (map (local_block no_literal (zipDate_of p)
                                                  (zCRC32 z)) (files z))))
                (length (local_header no_literal (zipDate_of p) (zCRC32 z) f
                         ++ data f))
                archive
          = local_header no_literal (zipDate_of p) (zCRC32 z) f ++ data f.
Proof.
  intros p z. split; [reflexivity|]. split; [reflexivity|].
  apply (add_then_write_archive no_literal p z [0x31] sample_attachment
           (repeat 0x61 300)); reflexivity.
Defined.

Lemma evaluate_bitwise_witness :
  let self := CRC32.initialize None in
  CRC32._crc_table self = None
  /\ fst (CRC32.evaluate self (CRC32.OfBytes [0x68; 0x69]))
     = crc_bitwise (CRC32.MAGIC_NUMBER self) [0x68; 0x69]
  /\ fst (CRC32.evaluate (snd (CRC32.evaluate self (CRC32.OfBytes [])))
                         (CRC32.OfBytes [0x68; 0x69]))
     = crc_bitwise (CRC32.MAGIC_NUMBER self) [0x68; 0x69].
Proof.
  intros self. split; [reflexivity|].
  apply (evaluate_bitwise self (CRC32.OfBytes []) [0x68; 0x69]).
  reflexivity.
Defined.

Lemma add_truncates_name_witness :
  let p := sample_platform in
  let z := zipper_with [empty_file 0x62] in
  let file_name := repeat 0x61 300 in
  sys_attachment p [0x31] = Some sample_attachment
  /\ att_file_name sample_attachment = Some file_name
  /\ exists (f : FileData) (archive : jsstring) (z' : Zipper),
       add [0x31] p z
       = Returned tt p {| zCRC32 := zCRC32 z; files := files z ++ [f];
                          date := date z; _zipDate := _zipDate z |}
       /\ name f = firstn 255 file_name
       /\ len (name f) = Z.min (len file_name) 255
       /\ (forall (q : Platform) (z1 : Zipper) (zd : ZipDate) (o : Z),
             _zipDate z1 = Some zd ->
             exists (h r : jsstring) (z2 z3 : Zipper),
               _header no_literal f q z1 = Returned h q z2
               /\ _directory no_literal f o q z2 = Returned r q z3
               /\ le_value (slice 26 2 h) = len (name f)
               /\ skipn 30 h = name f
               /\ le_value (slice 28 2 r) = len (name f)
               /\ skipn 46 r = name f)
       /\ (add [0x31] ;;; write_archive no_literal) p z
          = Returned archive p z'
       /\ le_value (slice (Z.to_nat (blocks_length (files z)) + 26) 2 archive)
          = len (name f)
       /\ le_value
            (slice (Z.to_nat (blocks_length (files z ++ [f])
                              + record_position (files z ++ [f])
                                                (length (files z)))
                    + 28)
                   2 archive)
          = len (name f).
Proof.
  intros p z file_name. split; [reflexivity|]. split; [reflexivity|].
  apply (add_truncates_name no_literal p z [0x31] sample_attachment
           file_name); reflexivity.
Defined.

Lemma central_record_mirrors_header_witness :
  let f := empty_file 0x61 in
  let p := sample_platform in
  let z := stamped_zipper [f] in
  let zd := zipDate_of sample_platform in
  _zipDate z = Some zd
  /\ exists (h r : jsstring) (z' : Zipper),
       (x <- _header no_literal f ;; y <- _directory no_literal f 0 ;;
        ret (x, y)) p z
       = Returned (h, r) p z'
       /\ length h = (30 + length (name f))%nat
       /\ length r = (46 + length (name f))%nat
       /\ slice 6 26 r = slice 4 26 h
       /\ skipn 30 h = name f
       /\ skipn 46 r = name f.
Proof.
  intros f p z zd. split; [reflexivity|].
  apply (central_record_mirrors_header no_literal f 0 p z zd).
  reflexivity.
Defined.

Lemma checksum_fields_witness :
  let f := {| sys_id := []; name := [0x61]; data := [0x68; 0x69] |} in
  let p := sample_platform in
  let z := stamped_zipper [f] in
  let zd := zipDate_of sample_platform in
  _zipDate z = Some zd
  /\ exists (h r : jsstring) (z1 z2 : Zipper),
       _header no_literal f p z = Returned h p z1
       /\ _directory no_literal f 0 p z1 = Returned r p z2
       /\ le_value (slice 14 4 h)
          = fst (CRC32.evaluate (zCRC32 z) (CRC32.OfString (data f)))
       /\ le_value (slice 16 4 r)
          = fst (CRC32.evaluate (zCRC32 z) (CRC32.OfString (data f))).
Proof.
  intros f p z zd. split; [reflexivity|].
  apply (checksum_fields no_literal f 0 p z zd). reflexivity.
Defined.

Lemma size_fields_spell_length_witness :
  let f := {| sys_id := []; name := [0x61]; data := [0x68; 0x69] |} in
  let p := sample_platform in
  let z := stamped_zipper [f] in
  let zd := zipDate_of sample_platform in
  _zipDate z = Some zd
  /\ exists (h r : jsstring) (z1 z2 : Zipper),
       _header no_literal f p z = Returned h p z1
       /\ _directory no_literal f 0 p z1 = Returned r p z2
       /\ le_value (slice 18 4 h) = len (data f) mod 2 ^ 32
       /\ le_value (slice 22 4 h) = len (data f) mod 2 ^ 32
       /\ le_value (slice 20 4 r) = len (data f) mod 2 ^ 32
       /\ le_value (slice 24 4 r) = len (data f) mod 2 ^ 32
       /\ (len (data f) < 2 ^ 32 ->
           le_value (slice 18 4 h) = len (data f)
           /\ le_value (slice 22 4 h) = len (data f)
           /\ le_value (slice 20 4 r) = len (data f)
           /\ le_value (slice 24 4 r) = len (data f)).
Proof.
  intros f p z zd. split; [reflexivity|].
  apply (size_fields_spell_length no_literal f 0 p z zd). reflexivity.
Defined.
